(** * Task Manager: the task and timer state machine and its persistence

    A shallow embedding of the task manager script (the variant with
    countdown timers): [createTask], [loadTasks], [saveTasks], [addTask],
    [deleteTask], [toggleTask], [clearCompleted], [startTimer],
    [pauseTimer], [resetTimer] and [checkTimers].

    Conventions of the embedding.

    - The module-level variables [tasks] and [taskId] and the content of
      the [localStorage] key [STORAGE_KEY] form the [State]; every function
      of the script is a function from [State] to an [Outcome]: the value
      it returns, the messages it shows, the state it leaves.
    - What the script reads from its environment is an explicit input, the
      [Env]: the clock ([Date.now()]), the number that [parseInt] reads in
      the [#taskTimer] field, and whether [localStorage.setItem] raises a
      quota error.
    - Numbers are integers ([Z]); timestamps are milliseconds.
    - A string is its sequence of UTF-16 code units; the model covers the
      code units below 256, where [trim] and [toLowerCase] are written out
      as ECMA-262 defines them.
    - Rendering (the DOM, the console) is left out; the messages shown to
      the user ([showFormError], [alert], [showToast]) are kept as
      [Event]s. *)

From Stdlib Require Import ZArith List String Ascii Bool Lia.
From Stdlib Require Import DecimalString DecimalZ.
Import ListNotations.

Open Scope Z_scope.

(** ** JavaScript values *)

(** The values a stored flag may hold and the values the functions of the
    script return.  Arrays and objects are only ever tested for truthiness
    here, so their content is not kept. *)
Inductive value : Type :=
  | undefined
  | null
  | boolean (b : bool)
  | number (n : Z)
  | str (s : string)
  | object.

(** [!!v] *)
Definition truthy (v : value) : bool :=
  match v with
  | undefined => false
  | null => false
  | boolean b => b
  | number n => negb (n =? 0)
  | str s => negb (s =? "")%string
  | object => true
  end.

(** Truthiness of a field that holds a number or [null]. *)
Definition truthy_num (v : option Z) : bool :=
  match v with
  | Some n => negb (n =? 0)
  | None => false
  end.

(** [v || d] on a number that may be missing. *)
Definition or_default (v : option Z) (d : Z) : Z :=
  if truthy_num v then match v with Some n => n | None => d end else d.

(** [Math.round(d / 1000)] for an integer [d]: the nearest integer, a tie
    going up.  On integers that is the floor of [(d + 500) / 1000]; the
    quotient [d / 1000] is a tie exactly when it is representable, so the
    floating-point division does not move it across one. *)
Definition round_div_1000 (d : Z) : Z := (d + 500) / 1000.

(** ** Strings *)

(** White space and line terminators below code unit 256: TAB, LF, VT, FF,
    CR, SP and NBSP. *)
Definition isWhiteSpace (c : ascii) : bool :=
  let n := nat_of_ascii c in
  (((9 <=? n) && (n <=? 13)) || (n =? 32) || (n =? 160))%nat.

Fixpoint trimStart (s : string) : string :=
  match s with
  | EmptyString => EmptyString
  | String c s' => if isWhiteSpace c then trimStart s' else s
  end.

Fixpoint trimEnd (s : string) : string :=
  match s with
  | EmptyString => EmptyString
  | String c s' =>
      let r := trimEnd s' in
      if isWhiteSpace c && (r =? "")%string then EmptyString else String c r
  end.

(** [s.trim()] *)
Definition trim (s : string) : string := trimEnd (trimStart s).

(** Lower case of one code unit: A-Z, and the capital letters of the
    Latin-1 supplement (U+00C0 to U+00DE without the multiplication sign). *)
Definition lowerChar (c : ascii) : ascii :=
  let n := nat_of_ascii c in
  if (((65 <=? n) && (n <=? 90))
      || ((192 <=? n) && (n <=? 214))
      || ((216 <=? n) && (n <=? 222)))%nat
  then ascii_of_nat (n + 32)
  else c.

(** [s.toLowerCase()] *)
Fixpoint toLowerCase (s : string) : string :=
  match s with
  | EmptyString => EmptyString
  | String c s' => String (lowerChar c) (toLowerCase s')
  end.

(** ** Data model *)

(** The object [createTask] builds.  [createdAt] is the instant of the
    [Date]; [timerEnd] is a timestamp or [null]. *)
Record Task : Type := mkTask {
  id : Z;
  text : string;
  completed : bool;
  createdAt : Z;
  timerSeconds : Z;
  timerRemainingSeconds : Z;
  timerEnd : option Z;
  incomplete : bool
}.

(** One record of the stored array, as [JSON.parse] returns it.  The
    fields the normaliser of [loadTasks] tests may be missing ([None],
    [undefined]) and the two flags may hold any value; [s_createdAt] is
    the instant the stored ISO string denotes.  A stored [timerEnd] of
    [null] is [None] as well: the normaliser treats both alike.  The
    fields the normaliser copies as they are have the types of the stored
    layout: the model covers the records with a number for [id], a string
    for [text] and numbers for the timer fields that are present. *)
Record Stored : Type := mkStored {
  s_id : Z;
  s_text : string;
  s_completed : value;
  s_createdAt : option Z;
  s_timerSeconds : option Z;
  s_timerRemainingSeconds : option Z;
  s_timerEnd : option Z;
  s_incomplete : value
}.

(** What the storage key holds.  The text of a JSON document is kept
    parsed: the script only looks at it through [JSON.parse] and through
    the truthiness of the string. *)
Inductive Item : Type :=
  | Garbled (s : string)        (* text that JSON.parse rejects; may be empty *)
  | Malformed                   (* a JSON value on which the normaliser raises
                                   TypeError: not an array, or an array with a
                                   null element *)
  | Records (rs : list Stored). (* an array of records *)

Record State : Type := mkState {
  tasks : list Task;
  taskId : Z;
  storage : option Item
}.

Record Env : Type := mkEnv {
  now : Z;                  (* Date.now() *)
  taskTimer : option Z;     (* parseInt($('#taskTimer').val(), 10); None is NaN *)
  quotaExceeded : bool      (* localStorage.setItem raises *)
}.

Inductive Event : Type :=
  | FormError (inputId message : string)
  | Alert (message : string)
  | Toast (message : string).

Record Outcome : Type := mkOutcome {
  ret : value;
  events : list Event;
  after : State
}.

Definition MAX_TASKS : nat := 100.

Definition initial : State :=
  {| tasks := []; taskId := 0; storage := None |}.

(** ** Persistence *)

(** The record [JSON.stringify] writes for a task. *)
Definition toJSON (t : Task) : Stored :=
  {| s_id := id t;
     s_text := text t;
     s_completed := boolean (completed t);
     s_createdAt := Some (createdAt t);
     s_timerSeconds := Some (timerSeconds t);
     s_timerRemainingSeconds := Some (timerRemainingSeconds t);
     s_timerEnd := timerEnd t;
     s_incomplete := boolean (incomplete t) |}.

Definition saveTasks (env : Env) (st : State) : Outcome :=
  if quotaExceeded env
  then {| ret := undefined;
          events := [Alert "Failed to save tasks. Storage might be full."];
          after := st |}
  else {| ret := undefined;
          events := [];
          after := {| tasks := tasks st;
                      taskId := taskId st;
                      storage := Some (Records (map toJSON (tasks st))) |} |}.

(** The arrow function [loadTasks] maps over the parsed array. *)
Definition normalize (clock : Z) (t : Stored) : Task :=
  {| id := s_id t;
     text := s_text t;
     completed := truthy (s_completed t);
     createdAt := match s_createdAt t with Some d => d | None => clock end;
     timerSeconds := or_default (s_timerSeconds t) 0;
     timerRemainingSeconds :=
       match s_timerRemainingSeconds t with
       | Some r => r
       | None => or_default (s_timerSeconds t) 0
       end;
     timerEnd := if truthy_num (s_timerEnd t) then s_timerEnd t else None;
     incomplete := truthy (s_incomplete t) |}.

(** [Math.max(...l)] for a non-empty [l]. *)
Definition Math_max (x : Z) (l : list Z) : Z := fold_left Z.max l x.

Definition with_tasks (st : State) (ts : list Task) : State :=
  {| tasks := ts; taskId := taskId st; storage := storage st |}.

Definition loadTasks (env : Env) (st : State) : Outcome :=
  let done s := {| ret := undefined; events := []; after := s |} in
  match storage st with
  | None => done st
  | Some (Garbled s) =>
      if (s =? "")%string then done st      (* a falsy string: not parsed *)
      else done (with_tasks st [])          (* SyntaxError, caught *)
  | Some Malformed => done (with_tasks st [])   (* TypeError, caught *)
  | Some (Records rs) =>
      let ts := map (normalize (now env)) rs in
      done {| tasks := ts;
              taskId := match map id ts with
                        | [] => taskId st
                        | i :: rest => Math_max i rest
                        end;
              storage := storage st |}
  end.

(** ** Operations on the collection *)

(** [createTask]: [++taskId] moves the counter, so the new task comes with
    the state that holds the new counter. *)
Definition createTask (text0 : string) (seconds : Z) (env : Env) (st : State)
  : Task * State :=
  let st' := {| tasks := tasks st; taskId := taskId st + 1;
                storage := storage st |} in
  ({| id := taskId st';
      text := text0;
      completed := false;
      createdAt := now env;
      timerSeconds := seconds;
      timerRemainingSeconds := seconds;
      timerEnd := if 0 <? seconds then Some (now env + seconds * 1000) else None;
      incomplete := false |},
   st').

(** The test of validation 5. *)
Definition sameText (trimmedText : string) (task : Task) : bool :=
  (toLowerCase (text task) =? toLowerCase trimmedText)%string.

Definition rejected (e : Event) (st : State) : Outcome :=
  {| ret := boolean false; events := [e]; after := st |}.

Definition addTask (text0 : string) (env : Env) (st : State) : Outcome :=
  let trimmedText := trim text0 in
  if (trimmedText =? "")%string then
    rejected (FormError "taskInput" "Task cannot be empty!") st
  else if (String.length trimmedText <? 3)%nat then
    rejected (FormError "taskInput" "Task must be at least 3 characters!") st
  else if (200 <? String.length trimmedText)%nat then
    rejected (FormError "taskInput" "Task cannot exceed 200 characters!") st
  else if (MAX_TASKS <=? List.length (tasks st))%nat then
    rejected (Alert "Maximum 100 tasks allowed!") st
  else if existsb (sameText trimmedText) (tasks st) then
    rejected (FormError "taskInput" "Task already exists!") st
  else
    let minutes := or_default (taskTimer env) 0 in
    let seconds := if 0 <? minutes then minutes * 60 else 0 in
    let (task, st1) := createTask trimmedText seconds env st in
    let saved := saveTasks env (with_tasks st1 (tasks st1 ++ [task])) in
    {| ret := boolean true; events := events saved; after := after saved |}.

Definition deleteTask (id0 : Z) (env : Env) (st : State) : Outcome :=
  saveTasks env
    (with_tasks st (filter (fun task => negb (id task =? id0)) (tasks st))).

Definition clearCompleted (env : Env) (st : State) : Outcome :=
  saveTasks env
    (with_tasks st (filter (fun task => negb (completed task)) (tasks st))).

(** [tasks.find(task => task.id === id0)] returns the first task with that
    id, and the functions below assign to its fields: in the array, the
    element at that place changes. *)
Definition hasId (id0 : Z) (task : Task) : bool := id task =? id0.

Fixpoint assign (id0 : Z) (task' : Task) (l : list Task) : list Task :=
  match l with
  | [] => []
  | task :: rest =>
      if hasId id0 task then task' :: rest else task :: assign id0 task' rest
  end.

Definition unchanged (st : State) : Outcome :=
  {| ret := undefined; events := []; after := st |}.

Definition toggleTask (id0 : Z) (env : Env) (st : State) : Outcome :=
  match find (hasId id0) (tasks st) with
  | Some task =>
      let task1 :=
        {| id := id task; text := text task;
           completed := negb (completed task);
           createdAt := createdAt task;
           timerSeconds := timerSeconds task;
           timerRemainingSeconds := timerRemainingSeconds task;
           timerEnd := timerEnd task;
           incomplete := incomplete task |} in
      let task2 :=
        if completed task1 then
          {| id := id task1; text := text task1;
             completed := completed task1;
             createdAt := createdAt task1;
             timerSeconds := timerSeconds task1;
             timerRemainingSeconds := 0;
             timerEnd := None;
             incomplete := false |}
        else task1 in
      saveTasks env (with_tasks st (assign id0 task2 (tasks st)))
  | None => unchanged st
  end.

(** ** Timers *)

Definition setRemaining (task : Task) (r : Z) : Task :=
  {| id := id task; text := text task; completed := completed task;
     createdAt := createdAt task; timerSeconds := timerSeconds task;
     timerRemainingSeconds := r;
     timerEnd := timerEnd task; incomplete := incomplete task |}.

Definition setTimerEnd (task : Task) (e : option Z) : Task :=
  {| id := id task; text := text task; completed := completed task;
     createdAt := createdAt task; timerSeconds := timerSeconds task;
     timerRemainingSeconds := timerRemainingSeconds task;
     timerEnd := e; incomplete := incomplete task |}.

Definition setIncomplete (task : Task) (b : bool) : Task :=
  {| id := id task; text := text task; completed := completed task;
     createdAt := createdAt task; timerSeconds := timerSeconds task;
     timerRemainingSeconds := timerRemainingSeconds task;
     timerEnd := timerEnd task; incomplete := b |}.

Definition startTimer (id0 : Z) (env : Env) (st : State) : Outcome :=
  match find (hasId id0) (tasks st) with
  | None => unchanged st
  | Some task =>
      if completed task || incomplete task then unchanged st
      else if truthy_num (timerEnd task) then unchanged st
      else
        let task1 :=
          if (timerRemainingSeconds task =? 0)
             && negb (timerSeconds task =? 0)
          then setRemaining task (timerSeconds task)
          else task in
        if 0 <? timerRemainingSeconds task1 then
          saveTasks env
            (with_tasks st
               (assign id0
                  (setTimerEnd task1
                     (Some (now env + timerRemainingSeconds task1 * 1000)))
                  (tasks st)))
        else unchanged (with_tasks st (assign id0 task1 (tasks st)))
  end.

Definition pauseTimer (id0 : Z) (env : Env) (st : State) : Outcome :=
  match find (hasId id0) (tasks st) with
  | None => unchanged st
  | Some task =>
      if completed task || incomplete task then unchanged st
      else
        match timerEnd task with
        | None => unchanged st
        | Some e =>
            if e =? 0 then unchanged st       (* a falsy timerEnd *)
            else
              let remaining := Z.max 0 (round_div_1000 (e - now env)) in
              saveTasks env
                (with_tasks st
                   (assign id0
                      (setTimerEnd (setRemaining task remaining) None)
                      (tasks st)))
        end
  end.

Definition resetTimer (id0 : Z) (env : Env) (st : State) : Outcome :=
  match find (hasId id0) (tasks st) with
  | None => unchanged st
  | Some task =>
      saveTasks env
        (with_tasks st
           (assign id0
              (setIncomplete
                 (setTimerEnd
                    (setRemaining task
                       (or_default (Some (timerSeconds task)) 0))
                    None)
                 false)
              (tasks st)))
  end.

(** The test of the loop of [checkTimers]. *)
Definition due (clock : Z) (task : Task) : bool :=
  truthy_num (timerEnd task) && negb (completed task)
  && negb (incomplete task)
  && match timerEnd task with Some e => e <=? clock | None => false end.

Definition expire (task : Task) : Task :=
  setRemaining (setTimerEnd (setIncomplete task true) None) 0.

Definition toast (task : Task) : Event :=
  Toast ("Timer expired: " ++ text task).

(** The [for ... of] loop: the tasks after it, the [changed] flag and the
    toasts it showed, in the order of the array. *)
Fixpoint checkLoop (clock : Z) (l : list Task) : list Task * bool * list Event :=
  match l with
  | [] => ([], false, [])
  | task :: rest =>
      let '(rest', changed, shown) := checkLoop clock rest in
      if due clock task
      then (expire task :: rest', true, toast task :: shown)
      else (task :: rest', changed, shown)
  end.

Definition checkTimers (env : Env) (st : State) : Outcome :=
  let '(ts, changed, shown) := checkLoop (now env) (tasks st) in
  if changed then
    let saved := saveTasks env (with_tasks st ts) in
    {| ret := undefined; events := shown ++ events saved; after := after saved |}
  else
    {| ret := undefined; events := shown; after := st |}.

(** ** The script as a state machine *)

Inductive Op : Type :=
  | AddTask (text0 : string)
  | DeleteTask (id0 : Z)
  | ToggleTask (id0 : Z)
  | ClearCompleted
  | StartTimer (id0 : Z)
  | PauseTimer (id0 : Z)
  | ResetTimer (id0 : Z)
  | CheckTimers
  | LoadTasks.

Definition run (op : Op) (env : Env) (st : State) : Outcome :=
  match op with
  | AddTask text0 => addTask text0 env st
  | DeleteTask id0 => deleteTask id0 env st
  | ToggleTask id0 => toggleTask id0 env st
  | ClearCompleted => clearCompleted env st
  | StartTimer id0 => startTimer id0 env st
  | PauseTimer id0 => pauseTimer id0 env st
  | ResetTimer id0 => resetTimer id0 env st
  | CheckTimers => checkTimers env st
  | LoadTasks => loadTasks env st
  end.

(** The states the script can be in: it starts with no task and the
    counter at 0, whatever the store holds. *)
Inductive reachable : State -> Prop :=
  | reach_start (s : option Item) :
      reachable {| tasks := []; taskId := 0; storage := s |}
  | reach_step (st : State) (op : Op) (env : Env) :
      reachable st -> reachable (after (run op env st)).

(** The same with clocks after the epoch only, as [Date.now()] reads. *)
Inductive reachable_after_epoch : State -> Prop :=
  | epoch_start (s : option Item) :
      reachable_after_epoch {| tasks := []; taskId := 0; storage := s |}
  | epoch_step (st : State) (op : Op) (env : Env) :
      0 < now env ->
      reachable_after_epoch st ->
      reachable_after_epoch (after (run op env st)).

(** ** The validation rules as the specification lists them *)

Inductive ValidationError : Type :=
  | Empty | TooShort | TooLong | LimitReached | Duplicate.

(** Whether a rule rejects the trimmed text [t] for the collection [ts]. *)
Definition spec_fails (e : ValidationError) (t : string) (ts : list Task)
  : bool :=
  match e with
  | Empty => (t =? "")%string
  | TooShort => (String.length t <? 3)%nat
  | TooLong => (200 <? String.length t)%nat
  | LimitReached => (100 <=? List.length ts)%nat
  | Duplicate =>
      existsb (fun task => (toLowerCase (text task) =? toLowerCase t)%string) ts
  end.

Definition spec_order : list ValidationError :=
  [Empty; TooShort; TooLong; LimitReached; Duplicate].

(** The first rule that fails, in the order of the specification. *)
Definition spec_first_failure (t : string) (ts : list Task)
  : option ValidationError :=
  find (fun e => spec_fails e t ts) spec_order.

(** How the script reports each error. *)
Definition reported (e : ValidationError) : Event :=
  match e with
  | Empty => FormError "taskInput" "Task cannot be empty!"
  | TooShort => FormError "taskInput" "Task must be at least 3 characters!"
  | TooLong => FormError "taskInput" "Task cannot exceed 200 characters!"
  | LimitReached => Alert "Maximum 100 tasks allowed!"
  | Duplicate => FormError "taskInput" "Task already exists!"
  end.

(** ** Predicates of the properties *)

(** A timestamp the script can tell from [null]: the number 0 is falsy,
    and the script tests [timerEnd] by truthiness. *)
Definition timestamp_ok (task : Task) : Prop := timerEnd task <> Some 0.

(** The condition of expiry as the specification words it: a timer end
    that is not [null], a task neither completed nor incomplete, and the
    clock at or past the end. *)
Definition spec_expires (clock : Z) (task : Task) : bool :=
  match timerEnd task with
  | Some e => negb (completed task) && negb (incomplete task) && (e <=? clock)
  | None => false
  end.

(** The texts of the toasts among the events. *)
Fixpoint toasts (l : list Event) : list string :=
  match l with
  | [] => []
  | Toast m :: l' => m :: toasts l'
  | _ :: l' => toasts l'
  end.

(** The invariant of a completed task. *)
Definition completed_inv (task : Task) : Prop :=
  completed task = true ->
  incomplete task = false /\ timerEnd task = None
  /\ timerRemainingSeconds task = 0.

(** Every id in the collection is at most the counter. *)
Definition ids_bounded (st : State) : Prop :=
  Forall (fun task => id task <= taskId st) (tasks st).

(** The remaining time of a task is within its duration, and a running
    timer ends no later than a full duration after [clock]. *)
Definition within (clock : Z) (task : Task) : Prop :=
  0 <= timerRemainingSeconds task <= timerSeconds task
  /\ match timerEnd task with
     | Some e => e <= clock + timerSeconds task * 1000
     | None => True
     end.

Definition timerOp (op : Op) : Prop :=
  match op with
  | StartTimer _ | PauseTimer _ => True
  | _ => False
  end.

(** A run of operations, each with the environment it meets. *)
Fixpoint run_all (ops : list (Op * Env)) (st : State) : State :=
  match ops with
  | [] => st
  | (op, env) :: ops' => run_all ops' (after (run op env st))
  end.

(** The clock never goes back along the run, starting from [clock]. *)
Fixpoint chronological (clock : Z) (ops : list (Op * Env)) : Prop :=
  match ops with
  | [] => True
  | (_, env) :: ops' => clock <= now env /\ chronological (now env) ops'
  end.

(** ** Views of the collection *)

(** [getFilteredTasks]; [currentFilter] is the module-level variable the
    filter buttons set, an explicit input here. *)
Definition getFilteredTasks (currentFilter : string) (st : State) : list Task :=
  if (currentFilter =? "completed")%string then
    filter (fun task => completed task) (tasks st)
  else if (currentFilter =? "active")%string then
    filter (fun task => negb (completed task) && negb (incomplete task))
      (tasks st)
  else if (currentFilter =? "incomplete")%string then
    filter (fun task => incomplete task) (tasks st)
  else tasks st.

Module Stats.
Record t : Type := mk { total : Z; completed : Z; remaining : Z }.
End Stats.

Definition getStats (st : State) : Stats.t :=
  let total := Z.of_nat (List.length (tasks st)) in
  let completed0 :=
    Z.of_nat (List.length (filter (fun task => completed task) (tasks st))) in
  {| Stats.total := total;
     Stats.completed := completed0;
     Stats.remaining := total - completed0 |}.

(** [updateStats] disables the clear button with [completed === 0]. *)
Definition clearBtnDisabled (st : State) : bool :=
  Stats.completed (getStats st) =? 0.

Definition getTaskTexts (st : State) : list string := map text (tasks st).

Definition getTotalTasksCount (st : State) : Z :=
  fold_left (fun count _ => count + 1) (tasks st) 0.

Definition hasCompletedTasks (st : State) : bool :=
  existsb (fun task => completed task) (tasks st).

Definition allTasksCompleted (st : State) : bool :=
  forallb (fun task => completed task) (tasks st).

(** [getTaskById]; [None] is [undefined]. *)
Definition getTaskById (id0 : Z) (st : State) : option Task :=
  find (hasId id0) (tasks st).

(** ** What the list shows *)

(** [String(n)] for an integer. *)
Definition toString (n : Z) : string := NilZero.string_of_int (Z.to_int n).

(** [s.padStart(n, c)] with a pad of one character. *)
Definition padStart (n : nat) (c : ascii) (s : string) : string :=
  (string_of_list_ascii (repeat c (n - String.length s)) ++ s)%string.

(** [formatTime]; [parseInt] of an integer is the integer. *)
Definition formatTime (totalSeconds : Z) : string :=
  let s := or_default (Some totalSeconds) 0 in
  let minutes := s / 60 in
  let seconds := Z.rem s 60 in
  (padStart 2 "0" (toString minutes) ++ ":"
   ++ padStart 2 "0" (toString seconds))%string.

(** [escapeHtml]: the text is put in an element as [textContent] and read
    back as [innerHTML], which serialises a text node with [&], [<], [>]
    and the no-break space replaced by their entities. *)
Fixpoint escapeHtml (s : string) : string :=
  match s with
  | EmptyString => EmptyString
  | String c s' =>
      let n := nat_of_ascii c in
      ((if (n =? 38)%nat then "&amp;"
        else if (n =? 60)%nat then "&lt;"
        else if (n =? 62)%nat then "&gt;"
        else if (n =? 160)%nat then "&nbsp;"
        else String c "") ++ escapeHtml s')%string
  end.

(** The timer part of a list item, as [renderTaskList] and
    [renderTaskListNative] build it.  The markup is left out; what is kept
    is the label of the display and the [disabled] attribute of the three
    buttons. *)
Inductive TimerLabel : Type :=
  | Expired
  | Time (shown : string).

Record TimerBlock : Type := mkTimerBlock {
  label : TimerLabel;
  startDisabled : bool;
  pauseDisabled : bool;
  resetDisabled : bool
}.

(** [const isRunning = !!task.timerEnd && !task.incomplete && !task.completed] *)
Definition isRunning (task : Task) : bool :=
  truthy_num (timerEnd task) && negb (incomplete task)
  && negb (completed task).

(** The number of seconds the display formats, when it formats one:
    [remaining] for a running timer, [rem] otherwise. *)
Definition shownSeconds (clock : Z) (task : Task) : Z :=
  let rem := if timerRemainingSeconds task =? 0
             then timerSeconds task
             else timerRemainingSeconds task in
  match timerEnd task with
  | Some e =>
      if e =? 0 then rem
      else Z.max 0 (round_div_1000 (e - clock))
  | None => rem
  end.

Definition timerBlock (clock : Z) (task : Task) : option TimerBlock :=
  if negb (timerSeconds task =? 0) && (0 <? timerSeconds task) then
    Some {| label := if incomplete task then Expired
                     else Time (formatTime (shownSeconds clock task));
            startDisabled :=
              isRunning task || completed task || incomplete task;
            pauseDisabled :=
              negb (isRunning task) || completed task || incomplete task;
            resetDisabled := timerSeconds task =? 0 |}
  else None.

(** ** More predicates *)

(** No two tasks of the collection have the same id. *)
Definition distinct_ids (st : State) : Prop := NoDup (map id (tasks st)).

(** No two tasks of the collection have the same text, case aside. *)
Definition distinct_texts (st : State) : Prop :=
  NoDup (map (fun task => toLowerCase (text task)) (tasks st)).

(** The store holds the collection that is in memory. *)
Definition in_sync (st : State) : Prop :=
  storage st = Some (Records (map toJSON (tasks st))).

(** How an operation other than a reload changes the collection: task
    by task with ids and texts kept, by removing tasks, or by appending the
    task [addTask] creates. *)
Inductive Shape (st st' : State) : Prop :=
  | shape_keys :
      Forall2 (fun a b => id b = id a /\ text b = text a)
        (tasks st) (tasks st') ->
      taskId st' = taskId st ->
      Shape st st'
  | shape_filter (f : Task -> bool) :
      tasks st' = filter f (tasks st) ->
      taskId st' = taskId st ->
      Shape st st'
  | shape_added (task : Task) :
      tasks st' = tasks st ++ [task] ->
      id task = taskId st + 1 ->
      taskId st' = taskId st + 1 ->
      (List.length (tasks st) < 100)%nat ->
      (forall old, In old (tasks st) ->
                   toLowerCase (text old) <> toLowerCase (text task)) ->
      Shape st st'.

(** No task is both completed and incomplete. *)
Definition exclusive (task : Task) : Prop :=
  completed task && incomplete task = false.

(** The number a string of decimal digits denotes, leading zeros
    allowed; [None] when a character is not a digit. *)
Definition digitsValue (s : string) : option Z :=
  option_map Z.of_uint (NilEmpty.uint_of_string s).

(** * Properties *)

(** The five validations of [addTask], one case each; [tac] closes the
    cases where the text is rejected. *)
Ltac validations tac :=
  repeat match goal with
         | |- context [if ?c then rejected _ _ else _] => destruct c; [tac |]
         end.

(** Names [task1] the task [startTimer] tests after it has, or has not,
    put the remaining time back to the duration. *)
Ltac name_task1 :=
  match goal with
  | |- context [if 0 <? timerRemainingSeconds ?t then _ else _] =>
      set (task1 := t)
  end.

(** ** The string and number primitives on examples *)

Example trim_example :
  trim (String (ascii_of_nat 9) "  Buy milk " ++ String (ascii_of_nat 160) "")
  = "Buy milk"%string.
Proof. reflexivity. Qed.

Example trim_inner_space : trim " a  b " = "a  b"%string.
Proof. reflexivity. Qed.

Example trim_blank : trim "   " = ""%string.
Proof. reflexivity. Qed.

Example toLowerCase_example : toLowerCase "Buy MILK, 2L" = "buy milk, 2l"%string.
Proof. reflexivity. Qed.

Example round_examples :
  map round_div_1000 [29600; 29500; 29499; 0; -499; -500; -501; -1500]
  = [30; 30; 29; 0; 0; 0; -1; -1].
Proof. reflexivity. Qed.

(** ** Lists and the assignment to the found task *)

Lemma find_hasId (id0 : Z) (l : list Task) (task : Task) :
  find (hasId id0) l = Some task -> In task l /\ id task = id0.
Proof.
  intros H. apply find_some in H. destruct H as [Hin Hid].
  split; [exact Hin | now apply Z.eqb_eq in Hid].
Qed.

Lemma find_assign (id0 : Z) (t' : Task) (l : list Task) (task : Task) :
  find (hasId id0) l = Some task -> id t' = id0 ->
  find (hasId id0) (assign id0 t' l) = Some t'.
Proof.
  intros Hf Hid. induction l as [| a l IH]; simpl in *; [discriminate |].
  destruct (hasId id0 a) eqn:E; simpl.
  - unfold hasId. now rewrite Hid, Z.eqb_refl.
  - rewrite E. now apply IH.
Qed.

(** At every place of the array, the assignment leaves the element or
    puts the new task where the found one was. *)
Lemma assign_nth (id0 : Z) (t' : Task) (l : list Task) (i : nat) (y : Task) :
  nth_error l i = Some y ->
  nth_error (assign id0 t' l) i = Some y
  \/ (nth_error (assign id0 t' l) i = Some t'
      /\ find (hasId id0) l = Some y).
Proof.
  revert i. induction l as [| a l IH]; intros i H.
  - destruct i; discriminate.
  - simpl. destruct (hasId id0 a) eqn:E.
    + destruct i; simpl in *.
      * right. split; [reflexivity | congruence].
      * left. exact H.
    + destruct i; simpl in *.
      * left. exact H.
      * apply IH. exact H.
Qed.

Lemma assign_Forall (P : Task -> Prop) (id0 : Z) (t' : Task) (l : list Task) :
  Forall P l -> P t' -> Forall P (assign id0 t' l).
Proof.
  intros Hl Ht. induction Hl as [| a l Ha Hl IH]; simpl; [constructor |].
  destruct (hasId id0 a); constructor; auto.
Qed.

Lemma Forall_filter (P : Task -> Prop) (f : Task -> bool) (l : list Task) :
  Forall P l -> Forall P (filter f l).
Proof.
  intros H. apply Forall_forall. intros x Hx.
  apply filter_In in Hx. destruct Hx as [Hx _].
  rewrite Forall_forall in H. now apply H.
Qed.

(** ** What [saveTasks] leaves *)

Lemma saveTasks_tasks (env : Env) (st : State) :
  tasks (after (saveTasks env st)) = tasks st.
Proof. unfold saveTasks. now destruct (quotaExceeded env). Qed.

Lemma saveTasks_taskId (env : Env) (st : State) :
  taskId (after (saveTasks env st)) = taskId st.
Proof. unfold saveTasks. now destruct (quotaExceeded env). Qed.

Lemma saveTasks_ret (env : Env) (st : State) :
  ret (saveTasks env st) = undefined.
Proof. unfold saveTasks. now destruct (quotaExceeded env). Qed.

Lemma saveTasks_toasts (env : Env) (st : State) :
  toasts (events (saveTasks env st)) = [].
Proof. unfold saveTasks. now destruct (quotaExceeded env). Qed.

Lemma saveTasks_storage (env : Env) (st : State) :
  quotaExceeded env = false ->
  storage (after (saveTasks env st)) = Some (Records (map toJSON (tasks st))).
Proof. unfold saveTasks. intros ->. reflexivity. Qed.

(** ** Adding a task *)

Lemma no_duplicate_existsb (t : string) (l : list Task) :
  (forall task, In task l -> toLowerCase (text task) <> toLowerCase t) ->
  existsb (sameText t) l = false.
Proof.
  intros H. destruct (existsb (sameText t) l) eqn:E; [| reflexivity].
  apply existsb_exists in E. destruct E as [task [Hin Heq]].
  unfold sameText in Heq. apply String.eqb_eq in Heq.
  now elim (H task Hin).
Qed.

(** What [addTask] does once the five validations have passed. *)
Lemma addTask_accepts (text0 : string) (env : Env) (st : State) :
  (trim text0 =? "")%string = false ->
  (String.length (trim text0) <? 3)%nat = false ->
  (200 <? String.length (trim text0))%nat = false ->
  (MAX_TASKS <=? List.length (tasks st))%nat = false ->
  existsb (sameText (trim text0)) (tasks st) = false ->
  let minutes := or_default (taskTimer env) 0 in
  let seconds := if 0 <? minutes then minutes * 60 else 0 in
  let created := createTask (trim text0) seconds env st in
  let saved :=
    saveTasks env
      (with_tasks (snd created) (tasks (snd created) ++ [fst created])) in
  addTask text0 env st
  = {| ret := boolean true; events := events saved; after := after saved |}.
Proof.
  intros H1 H2 H3 H4 H5. unfold addTask.
  rewrite H1, H2, H3, H4, H5. reflexivity.
Qed.

(** A return of [true] means every validation passed. *)
Lemma addTask_returns_true (text0 : string) (env : Env) (st : State) :
  ret (addTask text0 env st) = boolean true ->
  (trim text0 =? "")%string = false
  /\ (String.length (trim text0) <? 3)%nat = false
  /\ (200 <? String.length (trim text0))%nat = false
  /\ (MAX_TASKS <=? List.length (tasks st))%nat = false
  /\ existsb (sameText (trim text0)) (tasks st) = false.
Proof.
  unfold addTask.
  destruct (trim text0 =? "")%string; [discriminate |].
  destruct (String.length (trim text0) <? 3)%nat; [discriminate |].
  destruct (200 <? String.length (trim text0))%nat; [discriminate |].
  destruct (MAX_TASKS <=? List.length (tasks st))%nat; [discriminate |].
  destruct (existsb (sameText (trim text0)) (tasks st)); [discriminate |].
  intros _. repeat split.
Qed.

(** C2: [addTask] trims its input and applies the rules in the order
    empty, too short, too long, limit reached, duplicate; the first rule
    that fails decides: the function returns [false] with that rule's
    message and leaves the state (tasks, counter and store) as it was.
    When no rule fails it returns [true]. *)
Theorem addTask_validation_order (text0 : string) (env : Env) (st : State) :
  match spec_first_failure (trim text0) (tasks st) with
  | Some e =>
      addTask text0 env st
      = {| ret := boolean false; events := [reported e]; after := st |}
  | None => ret (addTask text0 env st) = boolean true
  end.
Proof.
  unfold spec_first_failure, spec_order. cbn [find spec_fails].
  destruct (trim text0 =? "")%string eqn:E1.
  { unfold addTask. rewrite E1. reflexivity. }
  destruct (String.length (trim text0) <? 3)%nat eqn:E2.
  { unfold addTask. rewrite E1, E2. reflexivity. }
  destruct (200 <? String.length (trim text0))%nat eqn:E3.
  { unfold addTask. rewrite E1, E2, E3. reflexivity. }
  destruct (100 <=? List.length (tasks st))%nat eqn:E4.
  { unfold addTask, MAX_TASKS. rewrite E1, E2, E3, E4. reflexivity. }
  destruct (existsb _ (tasks st)) eqn:E5.
  { unfold addTask, MAX_TASKS. rewrite E1, E2, E3, E4.
    change (existsb (sameText (trim text0)) (tasks st)) with
      (existsb (fun task => (toLowerCase (text task)
                             =? toLowerCase (trim text0))%string) (tasks st)).
    rewrite E5. reflexivity. }
  rewrite addTask_accepts; auto.
Qed.

(** ** Loading and saving *)

Lemma or_default_some (n : Z) : or_default (Some n) 0 = n.
Proof.
  unfold or_default, truthy_num. destruct (n =? 0) eqn:E; simpl; [| reflexivity].
  apply Z.eqb_eq in E. now subst.
Qed.

Lemma Math_max_spec (l : list Z) (x : Z) :
  In (Math_max x l) (x :: l) /\ Forall (fun i => i <= Math_max x l) (x :: l).
Proof.
  unfold Math_max. revert x. induction l as [| a l IH]; intros x; simpl.
  - split; [now left | constructor; [lia | constructor]].
  - destruct (IH (Z.max x a)) as [Hin Hall]. inversion Hall as [| ? ? Hm Hl]; subst.
    split.
    + destruct Hin as [Hin | Hin]; [| right; right; exact Hin].
      destruct (Z.max_spec x a) as [[_ E] | [_ E]];
        [right; left | left]; congruence.
    + constructor; [lia |]. constructor; [lia | exact Hl].
Qed.

Lemma Forall2_map_same {A B : Type} (R : A -> B -> Prop) (f : A -> B)
      (l : list A) :
  (forall x, R x (f x)) -> Forall2 R l (map f l).
Proof. intros H. induction l; simpl; constructor; auto. Qed.

(** What a task becomes when it is written and read back: itself, but for
    a [timerEnd] of 0, which is read back as [null]. *)
Lemma normalize_toJSON (clock : Z) (task : Task) :
  normalize clock (toJSON task)
  = setTimerEnd task (if truthy_num (timerEnd task) then timerEnd task else None).
Proof.
  destruct task as [i t c d s r e n]. unfold normalize, toJSON, setTimerEnd.
  simpl. now rewrite or_default_some.
Qed.

Lemma normalize_toJSON_id (clock : Z) (task : Task) :
  timestamp_ok task -> normalize clock (toJSON task) = task.
Proof.
  intros H. rewrite normalize_toJSON. destruct task as [i t c d s r e n].
  unfold timestamp_ok, setTimerEnd in *. simpl in *. f_equal.
  destruct e as [z |]; simpl; [| reflexivity].
  destruct (z =? 0) eqn:E; simpl; [| reflexivity].
  apply Z.eqb_eq in E. subst. now elim H.
Qed.

Lemma loadTasks_records (env : Env) (st : State) (rs : list Stored) :
  storage st = Some (Records rs) ->
  tasks (after (loadTasks env st)) = map (normalize (now env)) rs.
Proof. unfold loadTasks. intros ->. reflexivity. Qed.

(** C3: a collection written by [saveTasks] and read by [loadTasks],
    from whatever is in memory when it reads (an empty collection after a
    page reload, or any other), comes back as the normaliser's image of what
    was written, which is the collection itself, task by task and in the
    same order (ids, texts, flags and timer fields alike), given that the
    store took the write and that no [timerEnd] is the falsy timestamp 0. *)
Theorem save_load_roundtrip (env env' : Env) (st memory : State) :
  quotaExceeded env = false ->
  Forall timestamp_ok (tasks st) ->
  storage memory = storage (after (saveTasks env st)) ->
  let st' := after (loadTasks env' memory) in
  tasks st' = map (fun task => normalize (now env') (toJSON task)) (tasks st)
  /\ tasks st' = tasks st.
Proof.
  intros Hq Hok Hstore st'.
  assert (E : tasks st'
              = map (fun task => normalize (now env') (toJSON task)) (tasks st)).
  { unfold st'. erewrite loadTasks_records.
    2:{ rewrite Hstore. now apply saveTasks_storage. }
    now rewrite map_map. }
  split; [exact E |]. rewrite E.
  transitivity (map (fun x : Task => x) (tasks st)); [| apply map_id].
  apply map_ext_in.
  intros task Hin. apply normalize_toJSON_id.
  rewrite Forall_forall in Hok. now apply Hok.
Qed.

Lemma save_load_roundtrip_witness :
  let task := {| id := 1; text := "Buy milk"; completed := false;
                 createdAt := 1000; timerSeconds := 60;
                 timerRemainingSeconds := 60; timerEnd := Some 61000;
                 incomplete := false |} in
  let other := {| id := 9; text := "Call mum"; completed := true;
                  createdAt := 500; timerSeconds := 0;
                  timerRemainingSeconds := 0; timerEnd := None;
                  incomplete := false |} in
  let env := {| now := 2000; taskTimer := None; quotaExceeded := false |} in
  let st := {| tasks := [task]; taskId := 1; storage := None |} in
  let reloaded := {| tasks := []; taskId := 0;
                     storage := storage (after (saveTasks env st)) |} in
  let elsewhere := {| tasks := [other]; taskId := 9;
                      storage := storage (after (saveTasks env st)) |} in
  tasks (after (loadTasks env reloaded)) = [task]
  /\ tasks (after (loadTasks env elsewhere)) = [task].
Proof.
  intros task other env st reloaded elsewhere.
  assert (Hok : Forall timestamp_ok (tasks st)).
  { repeat constructor. unfold timestamp_ok. simpl. discriminate. }
  split.
  - refine (proj2 (save_load_roundtrip env env st reloaded _ Hok _));
      reflexivity.
  - refine (proj2 (save_load_roundtrip env env st elsewhere _ Hok _));
      reflexivity.
Defined.

(** C8 as stated fails on a stored [completed] that is not a boolean but
    truthy: it is read as [true], not as [false]. *)
Lemma loadTasks_invalid_completed_counterexample :
  let r := {| s_id := 1; s_text := "Buy milk"; s_completed := str "no";
              s_createdAt := None; s_timerSeconds := None;
              s_timerRemainingSeconds := None; s_timerEnd := None;
              s_incomplete := undefined |} in
  let env := {| now := 1000; taskTimer := None; quotaExceeded := false |} in
  let st := {| tasks := []; taskId := 0; storage := Some (Records [r]) |} in
  ~ Forall (fun task => completed task = false)
      (tasks (after (loadTasks env st))).
Proof.
  intros r env st H. inversion H as [| ? ? Hc _]. discriminate Hc.
Qed.

(** C8, amended: [loadTasks] returns normally with no message, whatever
    the store holds.  From a stored array it builds one task per record,
    in order, with the record's id and text; [completed] and [incomplete]
    are the truthiness of the stored flags, so [false] when the flag is
    missing or falsy and [true] for any truthy value, boolean or not; a
    missing [timerSeconds] is 0, a missing [timerRemainingSeconds] is the
    task's [timerSeconds], a missing [createdAt] is the clock.  The counter
    becomes the largest id of a non-empty array and is left as it is for an
    empty one.  Text that does not parse leaves an empty collection. *)
Theorem loadTasks_normalizes (env : Env) (st : State) :
  let out := loadTasks env st in
  ret out = undefined
  /\ events out = []
  /\ (forall rs, storage st = Some (Records rs) ->
        Forall2
          (fun r task =>
             id task = s_id r
             /\ text task = s_text r
             /\ completed task = truthy (s_completed r)
             /\ incomplete task = truthy (s_incomplete r)
             /\ (s_completed r = undefined -> completed task = false)
             /\ (s_incomplete r = undefined -> incomplete task = false)
             /\ (s_timerSeconds r = None -> timerSeconds task = 0)
             /\ (forall n, s_timerSeconds r = Some n -> timerSeconds task = n)
             /\ (s_timerRemainingSeconds r = None ->
                 timerRemainingSeconds task = timerSeconds task)
             /\ (forall n, s_timerRemainingSeconds r = Some n ->
                           timerRemainingSeconds task = n)
             /\ (s_createdAt r = None -> createdAt task = now env)
             /\ (forall d, s_createdAt r = Some d -> createdAt task = d))
          rs (tasks (after out))
        /\ (rs = [] -> taskId (after out) = taskId st)
        /\ (rs <> [] ->
            In (taskId (after out)) (map s_id rs)
            /\ Forall (fun r => s_id r <= taskId (after out)) rs))
  /\ (forall s, storage st = Some (Garbled s) -> s <> ""%string ->
                tasks (after out) = [] /\ taskId (after out) = taskId st)
  /\ (storage (after out) = storage st).
Proof.
  intros out. unfold out, loadTasks.
  destruct (storage st) as [[s | | rs] |] eqn:Est.
  - destruct (s =? "")%string eqn:Es; simpl;
      (split; [reflexivity |]); (split; [reflexivity |]);
      (split; [intros rs [=] |]); (split; [| simpl; congruence]);
      intros s0 [= <-] Hne.
    + apply String.eqb_eq in Es. contradiction.
    + split; reflexivity.
  - simpl. split; [reflexivity |]. split; [reflexivity |].
    split; [intros rs [=] |]. split; [intros s [=] | simpl; congruence].
  - simpl. split; [reflexivity |]. split; [reflexivity |].
    split; [| split; [intros s [=] | simpl; congruence]].
    intros rs0 [= <-]. split; [| split].
    + apply Forall2_map_same. intros r. unfold normalize. simpl.
      split; [reflexivity |]. split; [reflexivity |].
      split; [reflexivity |]. split; [reflexivity |].
      split; [now intros -> |]. split; [now intros -> |].
      split; [now intros -> |].
      split; [intros n ->; apply or_default_some |].
      split; [now intros -> |]. split; [now intros n -> |].
      split; [now intros -> | now intros d ->].
    + now intros ->.
    + intros Hne. destruct rs as [| r rs]; [now elim Hne |]. simpl map.
      rewrite map_map. simpl.
      destruct (Math_max_spec (map (fun x => s_id x) rs) (s_id r)) as [Hin Hall].
      split.
      * exact Hin.
      * change (s_id r :: map (fun x => s_id x) rs)
          with (map (fun x => s_id x) (r :: rs)) in Hall.
        rewrite Forall_map in Hall. exact Hall.
  - simpl. split; [reflexivity |]. split; [reflexivity |].
    split; [intros rs [=] |]. split; [intros s [=] | simpl; congruence].
Qed.

(** C10: [loadTasks] copies every stored text as it is, in order, so a
    loaded collection may hold an empty text, a text shorter than 3 or
    longer than 200 characters, untrimmed text and texts that differ only
    in case; a text that [addTask] accepts is trimmed, has 3 to 200
    characters and differs, case aside, from every text already there. *)
Theorem text_rules_only_on_add :
  (forall env st rs,
      storage st = Some (Records rs) ->
      map text (tasks (after (loadTasks env st))) = map s_text rs)
  /\ (forall text0 env st,
        ret (addTask text0 env st) = boolean true ->
        exists task,
          tasks (after (addTask text0 env st)) = tasks st ++ [task]
          /\ text task = trim text0
          /\ (3 <= String.length (text task) <= 200)%nat
          /\ forall old, In old (tasks st) ->
                         toLowerCase (text old) <> toLowerCase (text task))
  /\ (let stored t i :=
        {| s_id := i; s_text := t; s_completed := boolean false;
           s_createdAt := Some 0; s_timerSeconds := Some 0;
           s_timerRemainingSeconds := Some 0; s_timerEnd := None;
           s_incomplete := boolean false |} in
      let long := String.concat "" (repeat "0123456789"%string 21) in
      let env := {| now := 1000; taskTimer := None; quotaExceeded := false |} in
      let st := {| tasks := []; taskId := 0;
                   storage := Some (Records [stored ""%string 1;
                                             stored "ab"%string 2;
                                             stored long 3;
                                             stored " Milk "%string 4;
                                             stored " MILK "%string 5]) |} in
      String.length long = 210%nat
      /\ map text (tasks (after (loadTasks env st)))
         = [""; "ab"; long; " Milk "; " MILK "]%string).
Proof.
  split; [| split].
  - intros env st rs H. rewrite (loadTasks_records env st rs H).
    rewrite map_map. reflexivity.
  - intros text0 env st H.
    destruct (addTask_returns_true text0 env st H) as (E1 & E2 & E3 & E4 & E5).
    rewrite addTask_accepts; auto.
    cbv zeta. simpl after. rewrite saveTasks_tasks. simpl.
    eexists. split; [reflexivity |]. simpl.
    apply Nat.ltb_ge in E2. apply Nat.ltb_ge in E3.
    repeat split; try lia.
    intros old Hin Heq.
    assert (X : existsb (sameText (trim text0)) (tasks st) = true).
    { apply existsb_exists. exists old. split; [exact Hin |].
      unfold sameText. now apply String.eqb_eq. }
    rewrite X in E5. discriminate E5.
  - vm_compute. split; reflexivity.
Qed.

(** ** The expiry check *)

Lemma checkLoop_spec (clock : Z) (l : list Task) :
  checkLoop clock l
  = (map (fun task => if due clock task then expire task else task) l,
     existsb (due clock) l,
     map toast (filter (due clock) l)).
Proof.
  induction l as [| a l IH]; simpl; [reflexivity |].
  rewrite IH. destruct (due clock a); reflexivity.
Qed.

(** With a timestamp that is not 0, the test of the loop is the condition
    of the specification. *)
Lemma due_spec_expires (clock : Z) (task : Task) :
  timestamp_ok task -> due clock task = spec_expires clock task.
Proof.
  unfold timestamp_ok, due, spec_expires, truthy_num.
  destruct (timerEnd task) as [e |]; [| reflexivity].
  intros H. destruct (e =? 0) eqn:E.
  - apply Z.eqb_eq in E. subst. now elim H.
  - reflexivity.
Qed.

Lemma toasts_app (l1 l2 : list Event) : toasts (l1 ++ l2) = toasts l1 ++ toasts l2.
Proof.
  induction l1 as [| a l1 IH]; simpl; [reflexivity |].
  destruct a; simpl; now rewrite IH.
Qed.

Lemma toasts_toast (l : list Task) :
  toasts (map toast l) = map (fun task => ("Timer expired: " ++ text task)%string) l.
Proof. induction l as [| a l IH]; simpl; [reflexivity | now rewrite IH]. Qed.

Lemma checkTimers_tasks (env : Env) (st : State) :
  tasks (after (checkTimers env st))
  = map (fun task => if due (now env) task then expire task else task)
      (tasks st).
Proof.
  unfold checkTimers. rewrite checkLoop_spec.
  destruct (existsb (due (now env)) (tasks st)) eqn:E; simpl.
  - now rewrite saveTasks_tasks.
  - transitivity (map (fun x : Task => x) (tasks st));
      [now rewrite map_id |].
    apply map_ext_in.
    intros a Ha. destruct (due (now env) a) eqn:Ea; [| reflexivity].
    assert (X : existsb (due (now env)) (tasks st) = true)
      by (apply existsb_exists; eauto).
    congruence.
Qed.

Lemma checkTimers_toasts (env : Env) (st : State) :
  toasts (events (checkTimers env st))
  = map (fun task => ("Timer expired: " ++ text task)%string)
      (filter (due (now env)) (tasks st)).
Proof.
  unfold checkTimers. rewrite checkLoop_spec.
  destruct (existsb (due (now env)) (tasks st)); simpl.
  - rewrite toasts_app, saveTasks_toasts, app_nil_r. apply toasts_toast.
  - apply toasts_toast.
Qed.

Lemma filter_map_expire (clock clock' : Z) (l : list Task) :
  filter (due clock')
    (map (fun task => if due clock task then expire task else task) l)
  = filter (fun task => negb (due clock task) && due clock' task) l.
Proof.
  induction l as [| a l IH]; simpl; [reflexivity |].
  destruct (due clock a) eqn:E; simpl.
  - exact IH.
  - destruct (due clock' a); now rewrite IH.
Qed.

Lemma startTimer_found (id0 : Z) (env : Env) (st : State) (task : Task) :
  find (hasId id0) (tasks st) = Some task ->
  completed task = false -> incomplete task = false ->
  truthy_num (timerEnd task) = false ->
  0 < timerRemainingSeconds task ->
  startTimer id0 env st
  = saveTasks env
      (with_tasks st
         (assign id0
            (setTimerEnd task
               (Some (now env + timerRemainingSeconds task * 1000)))
            (tasks st))).
Proof.
  intros Hf Hc Hi He Hr. unfold startTimer. rewrite Hf, Hc, Hi, He. simpl.
  replace (timerRemainingSeconds task =? 0) with false
    by (symmetry; apply Z.eqb_neq; lia).
  simpl. replace (0 <? timerRemainingSeconds task) with true
    by (symmetry; apply Z.ltb_lt; lia).
  reflexivity.
Qed.

(** C4: at the clock [now], [checkTimers] marks every task that has a
    timer end, is neither completed nor incomplete and whose timer end is
    at or before [now]: [incomplete] becomes [true], [timerEnd] [null] and
    [timerRemainingSeconds] 0; every other task stays as it is.  It shows
    one toast with the task's text for each task it marks, in the order of
    the collection, and no other toast.  A later call shows toasts only
    for tasks the earlier call did not mark.  In particular a task of 60
    seconds, alone in the collection and started at [t0], is marked at
    [t0 + 61000] with exactly one toast. *)
Theorem checkTimers_expiry :
  (forall env st,
      Forall timestamp_ok (tasks st) ->
      let out := checkTimers env st in
      let marked task :=
        {| id := id task; text := text task; completed := completed task;
           createdAt := createdAt task; timerSeconds := timerSeconds task;
           timerRemainingSeconds := 0; timerEnd := None;
           incomplete := true |} in
      let message task := ("Timer expired: " ++ text task)%string in
      tasks (after out)
      = map (fun task =>
               if spec_expires (now env) task then marked task else task)
          (tasks st)
      /\ toasts (events out)
         = map message (filter (spec_expires (now env)) (tasks st))
      /\ forall env',
           toasts (events (checkTimers env' (after out)))
           = map message
               (filter (fun task => negb (spec_expires (now env) task)
                                    && spec_expires (now env') task)
                  (tasks st)))
  /\ (forall env0 env1 st task,
        tasks st = [task] ->
        timerSeconds task = 60 -> timerRemainingSeconds task = 60 ->
        timerEnd task = None ->
        completed task = false -> incomplete task = false ->
        0 < now env0 -> now env1 = now env0 + 61000 ->
        let out := checkTimers env1 (after (startTimer (id task) env0 st)) in
        tasks (after out)
        = [ {| id := id task; text := text task; completed := false;
               createdAt := createdAt task; timerSeconds := 60;
               timerRemainingSeconds := 0; timerEnd := None;
               incomplete := true |} ]
        /\ toasts (events out) = [("Timer expired: " ++ text task)%string]).
Proof.
  split.
  - intros env st Hok out marked message.
    assert (Hdue : forall clock task, In task (tasks st) ->
                     due clock task = spec_expires clock task).
    { intros clock task Hin. apply due_spec_expires.
      rewrite Forall_forall in Hok. now apply Hok. }
    split; [| split].
    + unfold out. rewrite checkTimers_tasks. apply map_ext_in.
      intros task Hin. now rewrite Hdue.
    + unfold out. rewrite checkTimers_toasts. f_equal.
      apply filter_ext_in. intros task Hin. now apply Hdue.
    + intros env'. rewrite checkTimers_toasts. unfold out.
      rewrite checkTimers_tasks, filter_map_expire. f_equal.
      apply filter_ext_in. intros task Hin. now rewrite !Hdue.
  - intros env0 env1 st task Hst Hs Hr He Hc Hi Hpos Hclock out.
    assert (Hf : find (hasId (id task)) (tasks st) = Some task).
    { rewrite Hst. simpl. unfold hasId. now rewrite Z.eqb_refl. }
    assert (Hstart : tasks (after (startTimer (id task) env0 st))
                     = [setTimerEnd task (Some (now env0 + 60000))]).
    { rewrite (startTimer_found _ _ _ _ Hf Hc Hi); [| now rewrite He | lia].
      rewrite saveTasks_tasks. simpl. rewrite Hst. simpl.
      unfold hasId. now rewrite Z.eqb_refl, Hr. }
    assert (Hd : due (now env1) (setTimerEnd task (Some (now env0 + 60000)))
                 = true).
    { unfold due. simpl. rewrite Hc, Hi. simpl.
      destruct (now env0 + 60000 =? 0) eqn:E0;
        [apply Z.eqb_eq in E0; lia |].
      simpl. apply Z.leb_le. lia. }
    split.
    + unfold out. rewrite checkTimers_tasks, Hstart. cbn [map]. rewrite Hd.
      unfold expire, setRemaining, setTimerEnd, setIncomplete. simpl.
      now rewrite Hc, Hs.
    + unfold out. rewrite checkTimers_toasts, Hstart. cbn [filter].
      now rewrite Hd.
Qed.

Lemma checkTimers_expiry_witness :
  let task := {| id := 1; text := "Buy milk"; completed := false;
                 createdAt := 1000; timerSeconds := 60;
                 timerRemainingSeconds := 60; timerEnd := Some 61000;
                 incomplete := false |} in
  let env := {| now := 62000; taskTimer := None; quotaExceeded := false |} in
  let st := {| tasks := [task]; taskId := 1; storage := None |} in
  toasts (events (checkTimers env st)) = ["Timer expired: Buy milk"%string].
Proof.
  intros task env st.
  refine (proj1 (proj2 (proj1 checkTimers_expiry env st _))).
  repeat constructor. unfold timestamp_ok. simpl. discriminate.
Defined.

(** ** Completing a task *)

(** C7 as stated fails where it promises a failure indication:
    [toggleTask] returns [undefined] for an id no task has, the value it
    also returns for an id it finds. *)
Lemma toggleTask_no_failure_indication_counterexample :
  let env := {| now := 1000; taskTimer := None; quotaExceeded := false |} in
  let st := after (addTask "Buy milk" env initial) in
  find (hasId 1) (tasks st) <> None
  /\ find (hasId 2) (tasks st) = None
  /\ ret (toggleTask 2 env st) = undefined
  /\ ~ (ret (toggleTask 2 env st) <> ret (toggleTask 1 env st)).
Proof.
  intros env st. split; [| split; [| split]].
  - vm_compute. discriminate.
  - reflexivity.
  - reflexivity.
  - intros H. apply H. reflexivity.
Qed.

(** C7, amended: [toggleTask] flips [completed] on the first task with
    the given id and leaves every other task as it is; a task that becomes
    completed gets [incomplete = false], [timerEnd = null] and
    [timerRemainingSeconds = 0], a task that becomes not completed keeps
    its other fields; the collection is then written to the store (when the
    store takes the write); toggling the same id again gives back the
    original [completed].  When no task has the id, the state is left as it
    is and nothing is written.  The function returns [undefined] in both
    cases: no failure is indicated. *)
Theorem toggleTask_flips (id0 : Z) (env : Env) (st : State) :
  let out := toggleTask id0 env st in
  ret out = undefined
  /\ (forall task,
        find (hasId id0) (tasks st) = Some task ->
        let toggled :=
          if completed task then
            {| id := id task; text := text task; completed := false;
               createdAt := createdAt task; timerSeconds := timerSeconds task;
               timerRemainingSeconds := timerRemainingSeconds task;
               timerEnd := timerEnd task; incomplete := incomplete task |}
          else
            {| id := id task; text := text task; completed := true;
               createdAt := createdAt task; timerSeconds := timerSeconds task;
               timerRemainingSeconds := 0;
               timerEnd := None; incomplete := false |} in
        tasks (after out) = assign id0 toggled (tasks st)
        /\ find (hasId id0) (tasks (after out)) = Some toggled
        /\ completed toggled = negb (completed task)
        /\ taskId (after out) = taskId st
        /\ (quotaExceeded env = false ->
            storage (after out)
            = Some (Records (map toJSON (assign id0 toggled (tasks st)))))
        /\ forall env',
             exists back,
               find (hasId id0)
                 (tasks (after (toggleTask id0 env' (after out))))
               = Some back
               /\ completed back = completed task)
  /\ (find (hasId id0) (tasks st) = None ->
      out = {| ret := undefined; events := []; after := st |}).
Proof.
  intros out.
  assert (Hfound : forall env1 st1 task,
             find (hasId id0) (tasks st1) = Some task ->
             exists toggled,
               toggleTask id0 env1 st1
               = saveTasks env1 (with_tasks st1 (assign id0 toggled (tasks st1)))
               /\ id toggled = id0
               /\ completed toggled = negb (completed task)
               /\ toggled
                  = if completed task then
                      {| id := id task; text := text task; completed := false;
                         createdAt := createdAt task;
                         timerSeconds := timerSeconds task;
                         timerRemainingSeconds := timerRemainingSeconds task;
                         timerEnd := timerEnd task;
                         incomplete := incomplete task |}
                    else
                      {| id := id task; text := text task; completed := true;
                         createdAt := createdAt task;
                         timerSeconds := timerSeconds task;
                         timerRemainingSeconds := 0;
                         timerEnd := None; incomplete := false |}).
  { intros env1 st1 task Hf. unfold toggleTask. rewrite Hf.
    destruct (find_hasId _ _ _ Hf) as [_ Hid].
    destruct (completed task) eqn:Ec; simpl;
      eexists; (split; [reflexivity |]); simpl; auto. }
  split; [| split].
  - unfold out, toggleTask. destruct (find (hasId id0) (tasks st)).
    + apply saveTasks_ret.
    + reflexivity.
  - intros task Hf toggled.
    destruct (Hfound env st task Hf) as (tg & Heq & Hid & Hc & Htg).
    fold toggled in Htg. subst tg.
    assert (Ht : tasks (after out) = assign id0 toggled (tasks st)).
    { unfold out. rewrite Heq, saveTasks_tasks. reflexivity. }
    assert (Hf' : find (hasId id0) (tasks (after out)) = Some toggled).
    { rewrite Ht. eapply find_assign; eauto. }
    split; [exact Ht |]. split; [exact Hf' |]. split; [exact Hc |].
    split; [unfold out; rewrite Heq, saveTasks_taskId; reflexivity |].
    split.
    + intros Hq. unfold out. rewrite Heq. now rewrite saveTasks_storage.
    + intros env'.
      destruct (Hfound env' (after out) toggled Hf')
        as (back & Heq' & Hid' & Hc' & _).
      exists back. split.
      * rewrite Heq', saveTasks_tasks. simpl.
        eapply find_assign; eauto.
      * rewrite Hc', Hc. apply negb_involutive.
  - intros Hn. unfold out, toggleTask. rewrite Hn. reflexivity.
Qed.

(** ** Pausing and starting *)

Lemma find_map_id (id0 : Z) (g : Task -> Task) (l : list Task) (task : Task) :
  (forall x, id (g x) = id x) ->
  find (hasId id0) l = Some task ->
  find (hasId id0) (map g l) = Some (g task).
Proof.
  intros Hg. induction l as [| a l IH]; cbn [find map]; [discriminate |].
  replace (hasId id0 (g a)) with (hasId id0 a)
    by (unfold hasId; now rewrite Hg).
  destruct (hasId id0 a); [now intros [= ->] | exact IH].
Qed.

Lemma pauseTimer_found (id0 : Z) (env : Env) (st : State) (task : Task) (e : Z) :
  find (hasId id0) (tasks st) = Some task ->
  completed task = false -> incomplete task = false ->
  timerEnd task = Some e -> e <> 0 ->
  pauseTimer id0 env st
  = saveTasks env
      (with_tasks st
         (assign id0
            (setTimerEnd
               (setRemaining task (Z.max 0 (round_div_1000 (e - now env))))
               None)
            (tasks st))).
Proof.
  intros Hf Hc Hi He Hne. unfold pauseTimer. rewrite Hf, Hc, Hi, He. simpl.
  apply Z.eqb_neq in Hne. now rewrite Hne.
Qed.

Lemma round_past (d : Z) : d <= 0 -> Z.max 0 (round_div_1000 d) = 0.
Proof.
  intros H. unfold round_div_1000.
  assert ((d + 500) / 1000 < 1) by (apply Z.div_lt_upper_bound; lia).
  lia.
Qed.

Lemma round_bound (d s : Z) :
  0 <= s -> d <= s * 1000 -> 0 <= Z.max 0 (round_div_1000 d) <= s.
Proof.
  intros Hs H. unfold round_div_1000.
  assert ((d + 500) / 1000 < s + 1) by (apply Z.div_lt_upper_bound; lia).
  lia.
Qed.

(** C9: a running task whose timer end has passed and which is paused
    before the next check gets [timerRemainingSeconds = 0] and
    [timerEnd = null], stays not incomplete and gets no toast; no later
    check marks it, and a later start gives it its full [timerSeconds]
    again. *)
Theorem pause_after_expiry_skips_marking
        (id0 : Z) (env : Env) (st : State) (task : Task) (e : Z) :
  find (hasId id0) (tasks st) = Some task ->
  timerEnd task = Some e -> e <> 0 ->
  completed task = false -> incomplete task = false ->
  e <= now env ->
  let out := pauseTimer id0 env st in
  let paused :=
    {| id := id task; text := text task; completed := false;
       createdAt := createdAt task; timerSeconds := timerSeconds task;
       timerRemainingSeconds := 0; timerEnd := None; incomplete := false |} in
  tasks (after out) = assign id0 paused (tasks st)
  /\ find (hasId id0) (tasks (after out)) = Some paused
  /\ toasts (events out) = []
  /\ (forall env',
        let checked := checkTimers env' (after out) in
        find (hasId id0) (tasks (after checked)) = Some paused
        /\ due (now env') paused = false
        /\ spec_expires (now env') paused = false)
  /\ (forall env',
        let restarted :=
          {| id := id task; text := text task; completed := false;
             createdAt := createdAt task; timerSeconds := timerSeconds task;
             timerRemainingSeconds := timerSeconds task;
             timerEnd := if 0 <? timerSeconds task
                         then Some (now env' + timerSeconds task * 1000)
                         else None;
             incomplete := false |} in
        find (hasId id0) (tasks (after (startTimer id0 env' (after out))))
        = Some restarted).
Proof.
  intros Hf He Hne Hc Hi Hpast out paused.
  destruct (find_hasId _ _ _ Hf) as [_ Hid].
  assert (Hout : out = saveTasks env (with_tasks st (assign id0 paused (tasks st)))).
  { unfold out. rewrite (pauseTimer_found _ _ _ _ _ Hf Hc Hi He Hne).
    rewrite round_past by lia.
    unfold paused, setTimerEnd, setRemaining. simpl. now rewrite Hc, Hi. }
  assert (Ht : tasks (after out) = assign id0 paused (tasks st)).
  { rewrite Hout, saveTasks_tasks. reflexivity. }
  assert (Hf' : find (hasId id0) (tasks (after out)) = Some paused).
  { rewrite Ht. eapply find_assign; eauto. }
  split; [exact Ht |]. split; [exact Hf' |].
  split; [rewrite Hout; apply saveTasks_toasts |]. split.
  - intros env' checked. split; [| split; reflexivity].
    unfold checked. rewrite checkTimers_tasks.
    rewrite (find_map_id id0
               (fun x => if due (now env') x then expire x else x) _ paused).
    + reflexivity.
    + intros x. now destruct (due (now env') x).
    + exact Hf'.
  - intros env' restarted. unfold startTimer. rewrite Hf'. simpl.
    destruct (timerSeconds task =? 0) eqn:E0; simpl.
    + apply Z.eqb_eq in E0.
      rewrite (find_assign id0 paused _ paused Hf' Hid).
      unfold restarted, paused. rewrite E0. reflexivity.
    + destruct (0 <? timerSeconds task) eqn:E1.
      * rewrite saveTasks_tasks. simpl.
        erewrite find_assign; [| exact Hf' | exact Hid].
        unfold restarted. try rewrite E1. reflexivity.
      * simpl. erewrite find_assign; [| exact Hf' | exact Hid].
        unfold restarted. try rewrite E1. reflexivity.
Qed.

Lemma pause_after_expiry_skips_marking_witness :
  let task := {| id := 1; text := "Buy milk"; completed := false;
                 createdAt := 1000; timerSeconds := 60;
                 timerRemainingSeconds := 60; timerEnd := Some 61000;
                 incomplete := false |} in
  let env := {| now := 61400; taskTimer := None; quotaExceeded := false |} in
  let st := {| tasks := [task]; taskId := 1; storage := None |} in
  tasks (after (pauseTimer 1 env st))
  = [ {| id := 1; text := "Buy milk"; completed := false;
         createdAt := 1000; timerSeconds := 60;
         timerRemainingSeconds := 0; timerEnd := None;
         incomplete := false |} ].
Proof.
  intros task env st.
  refine (proj1 (pause_after_expiry_skips_marking 1 env st task 61000
                   _ _ _ _ _ _)).
  - reflexivity.
  - reflexivity.
  - discriminate.
  - reflexivity.
  - reflexivity.
  - simpl. lia.
Defined.

(** ** The remaining time stays within the duration *)

Lemma within_mono (clock clock' : Z) (task : Task) :
  clock <= clock' -> within clock task -> within clock' task.
Proof.
  unfold within. intros H [Hr He]. split; [exact Hr |].
  destruct (timerEnd task); [lia | exact I].
Qed.

(** A start or a pause keeps every task of the collection within its
    duration, at its place. *)
Lemma timerOp_within (op : Op) (env : Env) (st : State) (clock : Z)
      (i : nat) (y : Task) :
  timerOp op -> clock <= now env ->
  nth_error (tasks st) i = Some y -> within clock y ->
  exists y',
    nth_error (tasks (after (run op env st))) i = Some y'
    /\ within (now env) y'
    /\ id y' = id y /\ timerSeconds y' = timerSeconds y.
Proof.
  intros Hop Hclock Hnth Hy.
  assert (Hkeep : exists y', nth_error (tasks st) i = Some y'
                    /\ within (now env) y'
                    /\ id y' = id y /\ timerSeconds y' = timerSeconds y).
  { exists y. split; [exact Hnth |].
    split; [now apply (within_mono clock) |]. split; reflexivity. }
  assert (Hput : forall id0 t',
             (find (hasId id0) (tasks st) = Some y ->
              within (now env) t' /\ id t' = id y
              /\ timerSeconds t' = timerSeconds y) ->
             exists y', nth_error (assign id0 t' (tasks st)) i = Some y'
                    /\ within (now env) y'
                    /\ id y' = id y /\ timerSeconds y' = timerSeconds y).
  { intros id0 t' Ht'.
    destruct (assign_nth id0 t' _ _ _ Hnth) as [E | [E Hf]].
    - destruct Hkeep as (y0 & H0 & Hrest). exists y0. split; [| exact Hrest].
      congruence.
    - exists t'. split; [exact E |]. now apply Ht'. }
  destruct Hy as [Hr He].
  destruct op; simpl in Hop; try contradiction; simpl run.
  - (* StartTimer *)
    unfold startTimer. destruct (find (hasId id0) (tasks st)) as [task |] eqn:Hf;
      [| exact Hkeep].
    destruct (completed task || incomplete task); [exact Hkeep |].
    destruct (truthy_num (timerEnd task)) eqn:Et; [exact Hkeep |].
    name_task1.
    assert (H1 : find (hasId id0) (tasks st) = Some y ->
                 0 <= timerRemainingSeconds task1 <= timerSeconds y
                 /\ id task1 = id y /\ timerSeconds task1 = timerSeconds y
                 /\ timerEnd task1 = timerEnd y).
    { intros Hfy. assert (task = y) by congruence. subst task.
      unfold task1.
      destruct ((timerRemainingSeconds y =? 0) && negb (timerSeconds y =? 0));
        simpl; repeat split; auto; lia. }
    destruct (0 <? timerRemainingSeconds task1) eqn:Ep.
    + rewrite saveTasks_tasks. simpl. apply Hput. intros Hfy.
      destruct (H1 Hfy) as (Ha & Hb & Hc & Hd). apply Z.ltb_lt in Ep.
      unfold within. simpl. rewrite Hc. repeat split; auto; lia.
    + simpl. apply Hput. intros Hfy.
      destruct (H1 Hfy) as (Ha & Hb & Hc & Hd).
      unfold within. rewrite Hc, Hd. repeat split; auto; try lia.
      destruct (timerEnd y); [lia | exact I].
  - (* PauseTimer *)
    unfold pauseTimer. destruct (find (hasId id0) (tasks st)) as [task |] eqn:Hf;
      [| exact Hkeep].
    destruct (completed task || incomplete task); [exact Hkeep |].
    destruct (timerEnd task) as [e |] eqn:Ee; [| exact Hkeep].
    destruct (e =? 0); [exact Hkeep |].
    rewrite saveTasks_tasks. simpl. apply Hput. intros Hfy.
    assert (task = y) by congruence. subst task. rewrite Ee in He.
    unfold within. simpl.
    split; [split; [apply round_bound; lia | exact I] | split; reflexivity].
Qed.

Lemma run_all_within (ops : list (Op * Env)) :
  forall (st : State) (clock : Z) (i : nat) (y : Task),
    Forall (fun oe => timerOp (fst oe)) ops ->
    chronological clock ops ->
    nth_error (tasks st) i = Some y -> within clock y ->
    exists y',
      nth_error (tasks (run_all ops st)) i = Some y'
      /\ id y' = id y /\ timerSeconds y' = timerSeconds y
      /\ 0 <= timerRemainingSeconds y' <= timerSeconds y'.
Proof.
  induction ops as [| [op env] ops IH]; intros st clock i y Hops Hchr Hnth Hy.
  - exists y. simpl.
    split; [exact Hnth |]. split; [reflexivity |]. split; [reflexivity |].
    exact (proj1 Hy).
  - inversion Hops as [| ? ? Hop Hrest]; subst. simpl in Hop.
    destruct Hchr as [Hle Hchr].
    destruct (timerOp_within op env st clock i y Hop Hle Hnth Hy)
      as (y1 & Hn1 & Hw1 & Hid1 & Hs1).
    destruct (IH _ _ _ _ Hrest Hchr Hn1 Hw1) as (y2 & Hn2 & Hid2 & Hs2 & Hb2).
    exists y2. simpl.
    split; [exact Hn2 |]. split; [congruence |]. split; [congruence |].
    exact Hb2.
Qed.

(** C6: take a task that [addTask] has just created, and any run of
    starts and pauses (of any ids) along which the clock never goes back:
    the task is still at its place, with its id and its [timerSeconds],
    and its [timerRemainingSeconds] is between 0 and [timerSeconds]. *)
Theorem remaining_within_duration
        (text0 : string) (env0 : Env) (st : State) (ops : list (Op * Env)) :
  ret (addTask text0 env0 st) = boolean true ->
  Forall (fun oe => timerOp (fst oe)) ops ->
  chronological (now env0) ops ->
  let place := List.length (tasks st) in
  let st1 := after (addTask text0 env0 st) in
  exists created task,
    nth_error (tasks st1) place = Some created
    /\ id created = taskId st + 1
    /\ timerRemainingSeconds created = timerSeconds created
    /\ nth_error (tasks (run_all ops st1)) place = Some task
    /\ id task = id created
    /\ timerSeconds task = timerSeconds created
    /\ 0 <= timerRemainingSeconds task <= timerSeconds task.
Proof.
  intros Hret Hops Hchr place st1.
  destruct (addTask_returns_true text0 env0 st Hret) as (E1 & E2 & E3 & E4 & E5).
  pose proof (addTask_accepts text0 env0 st E1 E2 E3 E4 E5) as Hadd.
  cbv zeta in Hadd.
  set (minutes := or_default (taskTimer env0) 0) in *.
  set (seconds := if 0 <? minutes then minutes * 60 else 0) in *.
  assert (Hsec : 0 <= seconds).
  { unfold seconds. destruct (0 <? minutes) eqn:E; [| lia].
    apply Z.ltb_lt in E. lia. }
  set (created := fst (createTask (trim text0) seconds env0 st)) in *.
  assert (Hn : nth_error (tasks st1) place = Some created).
  { unfold st1. rewrite Hadd. simpl after. rewrite saveTasks_tasks. simpl.
    unfold place. rewrite nth_error_app2 by lia.
    now rewrite Nat.sub_diag. }
  assert (Hw : within (now env0) created).
  { unfold within, created. simpl. split; [lia |].
    destruct (0 <? seconds); [lia | exact I]. }
  destruct (run_all_within ops st1 (now env0) place created Hops Hchr Hn Hw)
    as (task & Hn' & Hid & Hs & Hb).
  exists created, task.
  split; [exact Hn |]. split; [reflexivity |]. split; [reflexivity |].
  split; [exact Hn' |]. split; [exact Hid |]. split; [exact Hs | exact Hb].
Qed.

Lemma remaining_within_duration_witness :
  let at_ t := {| now := t; taskTimer := Some 1; quotaExceeded := false |} in
  let ops := [(PauseTimer 1, at_ 31000); (StartTimer 1, at_ 40000); (PauseTimer 1, at_ 55400)] in
  exists task,
    nth_error (tasks (run_all ops (after (addTask "Buy milk" (at_ 1000) initial))))
      0
    = Some task
    /\ timerSeconds task = 60
    /\ 0 <= timerRemainingSeconds task <= timerSeconds task.
Proof.
  intros at_ ops.
  destruct (remaining_within_duration "Buy milk" (at_ 1000) initial ops)
    as (created & task & H1 & H2 & H3 & H4 & H5 & H6 & H7).
  - reflexivity.
  - repeat constructor.
  - simpl. lia.
  - exists task. split; [exact H4 |]. split; [| exact H7].
    rewrite H6. vm_compute in H1. injection H1 as <-. reflexivity.
Defined.

(** ** The invariant of completed tasks *)

(** A task that satisfies the invariant still does once written to the
    store and read back. *)
Lemma completed_inv_toJSON (clock : Z) (task : Task) :
  completed_inv task -> completed_inv (normalize clock (toJSON task)).
Proof.
  rewrite normalize_toJSON. unfold completed_inv, setTimerEnd. simpl.
  intros H Hc. destruct (H Hc) as (Hi & He & Hr). rewrite He. auto.
Qed.

Lemma not_completed_inv (task : Task) :
  completed task = false -> completed_inv task.
Proof. unfold completed_inv. intros -> H. discriminate H. Qed.

(** C5 as stated fails for [resetTimer] and for [loadTasks].  A task of
    one minute is added, completed, then reset: the collection satisfies
    the invariant before the reset and not after it.  And [loadTasks],
    called on the start state (no task, so the invariant holds) with a
    store that holds a completed record with 30 seconds remaining, leaves
    that task in memory as it is stored. *)
Lemma completed_invariant_broken_counterexample :
  let env := {| now := 1000; taskTimer := Some 1; quotaExceeded := false |} in
  let st := after (toggleTask 1 env (after (addTask "Buy milk" env initial))) in
  let r := {| s_id := 1; s_text := "Buy milk"; s_completed := boolean true;
              s_createdAt := Some 0; s_timerSeconds := Some 60;
              s_timerRemainingSeconds := Some 30; s_timerEnd := None;
              s_incomplete := boolean false |} in
  let start := {| tasks := []; taskId := 0; storage := Some (Records [r]) |} in
  (Forall completed_inv (tasks st)
   /\ ~ Forall completed_inv (tasks (after (run (ResetTimer 1) env st))))
  /\ (Forall completed_inv (tasks start)
      /\ ~ Forall completed_inv (tasks (after (run LoadTasks env start)))).
Proof.
  intros env st r start. split; split.
  - repeat constructor.
  - intros H. inversion H as [| ? ? Hc _].
    destruct (Hc eq_refl) as (_ & _ & Hr). discriminate Hr.
  - constructor.
  - intros H. inversion H as [| ? ? Hc _].
    destruct (Hc eq_refl) as (_ & _ & Hr). discriminate Hr.
Qed.

(** C5, amended: the invariant (a completed task is not incomplete, has
    no timer end and no remaining time) holds for every task after
    [addTask], [deleteTask], [toggleTask], [clearCompleted], [startTimer],
    [pauseTimer] and [checkTimers] applied to a collection that satisfies
    it.  [resetTimer] is allowed on a completed task and sets
    [timerRemainingSeconds = timerSeconds], [timerEnd = null] and
    [incomplete = false], so it keeps the invariant when the task it resets
    is not completed or has no duration.  [loadTasks] takes the collection
    from the store, not from memory: it gives a collection that satisfies
    the invariant when the stored array is one [saveTasks] wrote for a
    collection that satisfied it (and when the store holds no array). *)
Theorem completed_invariant_kept (op : Op) (env : Env) (st : State) :
  Forall completed_inv (tasks st) ->
  (forall id0 task,
      op = ResetTimer id0 -> find (hasId id0) (tasks st) = Some task ->
      completed task = true -> timerSeconds task = 0) ->
  (op = LoadTasks ->
   forall rs, storage st = Some (Records rs) ->
              exists saved, rs = map toJSON saved /\ Forall completed_inv saved) ->
  Forall completed_inv (tasks (after (run op env st)))
  /\ (forall id0 task,
        op = ResetTimer id0 -> find (hasId id0) (tasks st) = Some task ->
        find (hasId id0) (tasks (after (run op env st)))
        = Some {| id := id task; text := text task;
                  completed := completed task;
                  createdAt := createdAt task;
                  timerSeconds := timerSeconds task;
                  timerRemainingSeconds := timerSeconds task;
                  timerEnd := None; incomplete := false |}).
Proof.
  intros Ht Hreset Hload. split.
  - destruct op; simpl run.
    + (* AddTask *)
      unfold addTask. validations ltac:(exact Ht).
      simpl. rewrite saveTasks_tasks. simpl.
      apply Forall_app. split; [exact Ht |].
      constructor; [| constructor]. now apply not_completed_inv.
    + (* DeleteTask *)
      unfold deleteTask. rewrite saveTasks_tasks. simpl.
      now apply Forall_filter.
    + (* ToggleTask *)
      unfold toggleTask.
      destruct (find (hasId id0) (tasks st)) as [task |]; [| exact Ht].
      rewrite saveTasks_tasks. simpl.
      apply assign_Forall; [exact Ht |].
      destruct (completed task); simpl.
      * now apply not_completed_inv.
      * unfold completed_inv. simpl. auto.
    + (* ClearCompleted *)
      unfold clearCompleted. rewrite saveTasks_tasks. simpl.
      now apply Forall_filter.
    + (* StartTimer *)
      unfold startTimer.
      destruct (find (hasId id0) (tasks st)) as [task |]; [| exact Ht].
      destruct (completed task) eqn:Ec; simpl; [exact Ht |].
      destruct (incomplete task); simpl; [exact Ht |].
      destruct (truthy_num (timerEnd task)); [exact Ht |].
      name_task1.
      assert (Hc1 : completed task1 = false).
      { unfold task1.
        now destruct ((timerRemainingSeconds task =? 0)
                      && negb (timerSeconds task =? 0)). }
      destruct (0 <? timerRemainingSeconds task1).
      * rewrite saveTasks_tasks. simpl.
        apply assign_Forall; [exact Ht |]. now apply not_completed_inv.
      * simpl. apply assign_Forall; [exact Ht |]. now apply not_completed_inv.
    + (* PauseTimer *)
      unfold pauseTimer.
      destruct (find (hasId id0) (tasks st)) as [task |]; [| exact Ht].
      destruct (completed task) eqn:Ec; simpl; [exact Ht |].
      destruct (incomplete task); simpl; [exact Ht |].
      destruct (timerEnd task) as [e |]; [| exact Ht].
      destruct (e =? 0); [exact Ht |].
      rewrite saveTasks_tasks. simpl.
      apply assign_Forall; [exact Ht |]. now apply not_completed_inv.
    + (* ResetTimer *)
      unfold resetTimer.
      destruct (find (hasId id0) (tasks st)) as [task |] eqn:Hf; [| exact Ht].
      rewrite saveTasks_tasks. simpl.
      apply assign_Forall; [exact Ht |].
      unfold completed_inv. simpl. intros Hc.
      rewrite or_default_some. rewrite (Hreset id0 task eq_refl Hf Hc). auto.
    + (* CheckTimers *)
      rewrite checkTimers_tasks. rewrite Forall_map.
      eapply Forall_impl; [| exact Ht]. intros task Hinv.
      destruct (due (now env) task) eqn:Ed; [| exact Hinv].
      apply not_completed_inv. unfold due in Ed. simpl.
      destruct (completed task); [| reflexivity].
      rewrite andb_false_r in Ed. discriminate Ed.
    + (* LoadTasks *)
      unfold loadTasks. destruct (storage st) as [[s | | rs] |] eqn:Es.
      * destruct (s =? "")%string; simpl; [exact Ht | constructor].
      * constructor.
      * destruct (Hload eq_refl rs eq_refl) as (saved & -> & Hsaved). simpl.
        rewrite map_map, Forall_map.
        eapply Forall_impl; [| exact Hsaved].
        intros task. apply completed_inv_toJSON.
      * exact Ht.
  - intros id0 task -> Hf. simpl run. unfold resetTimer. rewrite Hf.
    rewrite saveTasks_tasks. simpl. rewrite or_default_some.
    destruct (find_hasId _ _ _ Hf) as [_ Hid].
    eapply find_assign; eauto.
Qed.

Lemma completed_invariant_kept_witness :
  let env := {| now := 1000; taskTimer := None; quotaExceeded := false |} in
  let timed := {| now := 2000; taskTimer := Some 1; quotaExceeded := false |} in
  let st := after (toggleTask 1 env
                     (after (addTask "Buy milk" timed
                               (after (addTask "Call mum" env initial))))) in
  map completed (tasks st) = [true; false]
  /\ Forall completed_inv (tasks (after (run (ResetTimer 1) env st)))
  /\ Forall completed_inv (tasks (after (run (ToggleTask 2) env st)))
  /\ Forall completed_inv
       (tasks (after (run LoadTasks env
                        {| tasks := []; taskId := 0; storage := storage st |}))).
Proof.
  intros env timed st.
  assert (Hst : Forall completed_inv (tasks st)).
  { constructor; [| constructor; [| constructor]].
    - unfold completed_inv. simpl. auto.
    - apply not_completed_inv. reflexivity. }
  split; [reflexivity |]. split; [| split].
  - refine (proj1 (completed_invariant_kept (ResetTimer 1) env st Hst _ _)).
    + intros id0 task [= <-] Hf Hc. vm_compute in Hf. injection Hf as <-.
      reflexivity.
    + intros H. discriminate H.
  - refine (proj1 (completed_invariant_kept (ToggleTask 2) env st Hst _ _)).
    + intros id0 task H. discriminate H.
    + intros H. discriminate H.
  - refine (proj1 (completed_invariant_kept LoadTasks env
                     {| tasks := []; taskId := 0; storage := storage st |}
                     _ _ _)).
    + constructor.
    + intros id0 task H. discriminate H.
    + intros _ rs Hrs. exists (tasks st). split; [| exact Hst].
      vm_compute in Hrs. injection Hrs as <-. reflexivity.
Defined.

(** ** Reachable states *)

Lemma saveTasks_ids_bounded (env : Env) (st : State) :
  ids_bounded st -> ids_bounded (after (saveTasks env st)).
Proof. unfold saveTasks. now destruct (quotaExceeded env). Qed.

Lemma assign_ids_bounded (id0 : Z) (t' task : Task) (st : State) :
  ids_bounded st -> find (hasId id0) (tasks st) = Some task ->
  id t' = id task ->
  ids_bounded (with_tasks st (assign id0 t' (tasks st))).
Proof.
  unfold ids_bounded. simpl. intros Hb Hf Hid.
  apply assign_Forall; [exact Hb |].
  destruct (find_hasId _ _ _ Hf) as [Hin _].
  rewrite Forall_forall in Hb. rewrite Hid. now apply Hb.
Qed.

(** Every operation keeps the ids of the collection at or below the
    counter. *)
Lemma run_ids_bounded (op : Op) (env : Env) (st : State) :
  ids_bounded st -> ids_bounded (after (run op env st)).
Proof.
  intros Hb. destruct op; simpl run.
  - unfold addTask.
    validations ltac:(exact Hb).
    simpl. apply saveTasks_ids_bounded. unfold ids_bounded in *. simpl.
    apply Forall_app. split.
    + eapply Forall_impl; [| exact Hb]. simpl. intros; lia.
    + constructor; [simpl; lia | constructor].
  - apply saveTasks_ids_bounded. unfold ids_bounded in *. simpl.
    now apply Forall_filter.
  - unfold toggleTask.
    destruct (find (hasId id0) (tasks st)) as [task |] eqn:Hf; [| exact Hb].
    apply saveTasks_ids_bounded. apply (assign_ids_bounded _ _ task); auto.
    now destruct (completed task).
  - apply saveTasks_ids_bounded. unfold ids_bounded in *. simpl.
    now apply Forall_filter.
  - unfold startTimer.
    destruct (find (hasId id0) (tasks st)) as [task |] eqn:Hf; [| exact Hb].
    destruct (completed task || incomplete task); [exact Hb |].
    destruct (truthy_num (timerEnd task)); [exact Hb |].
    name_task1.
    assert (H1 : id task1 = id task).
    { unfold task1.
      now destruct ((timerRemainingSeconds task =? 0)
                    && negb (timerSeconds task =? 0)). }
    destruct (0 <? timerRemainingSeconds task1).
    + apply saveTasks_ids_bounded. now apply (assign_ids_bounded _ _ task).
    + simpl. now apply (assign_ids_bounded _ _ task).
  - unfold pauseTimer.
    destruct (find (hasId id0) (tasks st)) as [task |] eqn:Hf; [| exact Hb].
    destruct (completed task || incomplete task); [exact Hb |].
    destruct (timerEnd task) as [e |]; [| exact Hb].
    destruct (e =? 0); [exact Hb |].
    apply saveTasks_ids_bounded. now apply (assign_ids_bounded _ _ task).
  - unfold resetTimer.
    destruct (find (hasId id0) (tasks st)) as [task |] eqn:Hf; [| exact Hb].
    apply saveTasks_ids_bounded. now apply (assign_ids_bounded _ _ task).
  - unfold ids_bounded in *. rewrite checkTimers_tasks.
    replace (taskId (after (checkTimers env st))) with (taskId st).
    + rewrite Forall_map. eapply Forall_impl; [| exact Hb].
      intros task. now destruct (due (now env) task).
    + unfold checkTimers. rewrite checkLoop_spec.
      destruct (existsb (due (now env)) (tasks st)); simpl; [| reflexivity].
      now rewrite saveTasks_taskId.
  - unfold loadTasks. destruct (storage st) as [[s | | rs] |].
    + destruct (s =? "")%string; [exact Hb | constructor].
    + constructor.
    + unfold ids_bounded. simpl.
      destruct rs as [| r rs]; [constructor |].
      simpl map. rewrite map_map. simpl.
      destruct (Math_max_spec (map (fun x => s_id x) rs) (s_id r)) as [_ Hall].
      inversion Hall as [| ? ? Hr Hrs]; subst.
      constructor; [exact Hr |]. rewrite Forall_map. simpl.
      now rewrite Forall_map in Hrs.
    + exact Hb.
Qed.

(** In every state the script can reach the counter bounds the ids of
    the collection: the id [addTask] assigns next is new. *)
Lemma reachable_ids_bounded (st : State) : reachable st -> ids_bounded st.
Proof.
  induction 1 as [s | st op env _ IH].
  - constructor.
  - now apply run_ids_bounded.
Qed.

(** But for a reload, the counter never goes down. *)
Lemma taskId_monotone (op : Op) (env : Env) (st : State) :
  op <> LoadTasks -> taskId st <= taskId (after (run op env st)).
Proof.
  intros Hop. destruct op; simpl run; try (now elim Hop).
  - unfold addTask.
    validations ltac:(simpl; lia).
    simpl. rewrite saveTasks_taskId. simpl. lia.
  - unfold deleteTask. rewrite saveTasks_taskId. simpl. lia.
  - unfold toggleTask. destruct (find _ _); simpl; [| lia].
    rewrite saveTasks_taskId. simpl. lia.
  - unfold clearCompleted. rewrite saveTasks_taskId. simpl. lia.
  - unfold startTimer.
    repeat match goal with
           | |- context [match ?c with _ => _ end] =>
               destruct c; simpl; try lia
           end;
      try rewrite saveTasks_taskId; simpl; lia.
  - unfold pauseTimer.
    repeat match goal with
           | |- context [match ?c with _ => _ end] =>
               destruct c; simpl; try lia
           end;
      try rewrite saveTasks_taskId; simpl; lia.
  - unfold resetTimer. destruct (find _ _); simpl; [| lia].
    rewrite saveTasks_taskId. simpl. lia.
  - unfold checkTimers. rewrite checkLoop_spec.
    destruct (existsb _ _); simpl; [| lia].
    rewrite saveTasks_taskId. simpl. lia.
Qed.

(** With a clock after the epoch, no operation produces the falsy
    timestamp 0. *)
Lemma run_timestamp_ok (op : Op) (env : Env) (st : State) :
  0 < now env ->
  Forall timestamp_ok (tasks st) ->
  Forall timestamp_ok (tasks (after (run op env st))).
Proof.
  intros Hnow Hok.
  assert (Hnone : forall task, timerEnd task = None -> timestamp_ok task)
    by (unfold timestamp_ok; intros task ->; discriminate).
  assert (Hpos : forall task e, timerEnd task = Some e -> 0 < e ->
                                timestamp_ok task).
  { unfold timestamp_ok. intros task e -> He [= E]. lia. }
  destruct op; simpl run.
  - unfold addTask.
    validations ltac:(exact Hok).
    simpl. rewrite saveTasks_tasks. simpl.
    apply Forall_app. split; [exact Hok |]. constructor; [| constructor].
    remember (if 0 <? or_default (taskTimer env) 0
              then or_default (taskTimer env) 0 * 60 else 0) as seconds.
    destruct (0 <? seconds) eqn:E.
    + apply Z.ltb_lt in E. eapply Hpos; [reflexivity |]. lia.
    + now apply Hnone.
  - unfold deleteTask. rewrite saveTasks_tasks. simpl. now apply Forall_filter.
  - unfold toggleTask.
    destruct (find (hasId id0) (tasks st)) as [task |] eqn:Hf; [| exact Hok].
    rewrite saveTasks_tasks. simpl. apply assign_Forall; [exact Hok |].
    destruct (find_hasId _ _ _ Hf) as [Hin _].
    rewrite Forall_forall in Hok.
    destruct (completed task); simpl; [apply (Hok _ Hin) | now apply Hnone].
  - unfold clearCompleted. rewrite saveTasks_tasks. simpl.
    now apply Forall_filter.
  - unfold startTimer.
    destruct (find (hasId id0) (tasks st)) as [task |] eqn:Hf; [| exact Hok].
    destruct (completed task || incomplete task); [exact Hok |].
    destruct (truthy_num (timerEnd task)); [exact Hok |].
    name_task1.
    destruct (0 <? timerRemainingSeconds task1) eqn:E.
    + rewrite saveTasks_tasks. simpl. apply assign_Forall; [exact Hok |].
      apply Z.ltb_lt in E. eapply Hpos; [reflexivity |]. lia.
    + simpl. apply assign_Forall; [exact Hok |].
      destruct (find_hasId _ _ _ Hf) as [Hin _].
      rewrite Forall_forall in Hok. specialize (Hok _ Hin).
      unfold task1.
      now destruct ((timerRemainingSeconds task =? 0)
                    && negb (timerSeconds task =? 0)).
  - unfold pauseTimer.
    destruct (find (hasId id0) (tasks st)) as [task |] eqn:Hf; [| exact Hok].
    destruct (completed task || incomplete task); [exact Hok |].
    destruct (timerEnd task) as [e |]; [| exact Hok].
    destruct (e =? 0); [exact Hok |].
    rewrite saveTasks_tasks. simpl. apply assign_Forall; [exact Hok |].
    now apply Hnone.
  - unfold resetTimer.
    destruct (find (hasId id0) (tasks st)) as [task |] eqn:Hf; [| exact Hok].
    rewrite saveTasks_tasks. simpl. apply assign_Forall; [exact Hok |].
    now apply Hnone.
  - rewrite checkTimers_tasks, Forall_map.
    eapply Forall_impl; [| exact Hok]. intros task Ht.
    destruct (due (now env) task); [now apply Hnone | exact Ht].
  - unfold loadTasks. destruct (storage st) as [[s | | rs] |].
    + destruct (s =? "")%string; [exact Hok | constructor].
    + constructor.
    + simpl. rewrite Forall_map. apply Forall_forall. intros r _.
      unfold timestamp_ok, normalize, truthy_num. simpl.
      destruct (s_timerEnd r) as [e |]; [| discriminate].
      destruct (e =? 0) eqn:E; simpl; [discriminate |].
      intros [= ->]. discriminate E.
    + exact Hok.
Qed.

Lemma reachable_after_epoch_timestamp_ok (st : State) :
  reachable_after_epoch st -> Forall timestamp_ok (tasks st).
Proof.
  induction 1 as [s | st op env Hnow _ IH].
  - constructor.
  - now apply run_timestamp_ok.
Qed.

(** ** The ids [addTask] assigns *)

(** What a successful [addTask] leaves in memory. *)
Lemma addTask_appends (text0 : string) (env : Env) (st : State) :
  ret (addTask text0 env st) = boolean true ->
  exists task,
    tasks (after (addTask text0 env st)) = tasks st ++ [task]
    /\ taskId (after (addTask text0 env st)) = taskId st + 1
    /\ id task = taskId st + 1
    /\ text task = trim text0
    /\ completed task = false /\ incomplete task = false
    /\ timerRemainingSeconds task = timerSeconds task
    /\ 0 <= timerSeconds task.
Proof.
  intros Hret.
  destruct (addTask_returns_true _ _ _ Hret) as (E1 & E2 & E3 & E4 & E5).
  rewrite addTask_accepts by assumption. cbv zeta. simpl after.
  rewrite saveTasks_tasks, saveTasks_taskId. simpl.
  eexists. split; [reflexivity |]. simpl.
  repeat (split; [reflexivity |]).
  destruct (0 <? or_default (taskTimer env) 0) eqn:E; [| lia].
  apply Z.ltb_lt in E. lia.
Qed.

(** Along a run without a reload the counter never goes down. *)
Lemma run_all_taskId (ops : list (Op * Env)) (st : State) :
  Forall (fun oe => fst oe <> LoadTasks) ops ->
  taskId st <= taskId (run_all ops st).
Proof.
  revert st. induction ops as [| [op env] ops IH]; intros st Hops; simpl.
  - lia.
  - inversion Hops as [| ? ? Hop Hrest]; subst. simpl in Hop.
    pose proof (taskId_monotone op env st Hop).
    specialize (IH (after (run op env st)) Hrest). lia.
Qed.

(** C1 as stated fails where it says that the new id is above every id
    assigned before.  Two tasks are added (ids 1 and 2), the second is
    deleted, the page is reloaded ([loadTasks] on the start state with the
    store as it was left) and a valid text is added: the counter was set
    to the largest stored id, 1, and the new task gets the id 2 again. *)
Lemma addTask_reuses_id_counterexample :
  let env := {| now := 1000; taskTimer := None; quotaExceeded := false |} in
  let st2 := after (addTask "Buy milk" env
                      (after (addTask "Call mum" env initial))) in
  let st3 := after (deleteTask 2 env st2) in
  let reloaded :=
    after (loadTasks env {| tasks := []; taskId := 0; storage := storage st3 |}) in
  let out := addTask "Walk the dog" env reloaded in
  let task := last (tasks (after out))
                (mkTask 0 "" false 0 0 0 None false) in
  map id (tasks st2) = [1; 2]
  /\ (3 <= String.length (trim "Walk the dog") <= 200)%nat
  /\ existsb (sameText (trim "Walk the dog")) (tasks reloaded) = false
  /\ (List.length (tasks reloaded) < 100)%nat
  /\ ret out = boolean true
  /\ map id (tasks (after out)) = [1; 2]
  /\ ~ Forall (fun old => id old < id task) (tasks st2).
Proof.
  intros env st2 st3 reloaded out task.
  split; [reflexivity |]. split; [vm_compute; lia |].
  split; [reflexivity |]. split; [vm_compute; lia |].
  split; [reflexivity |]. split; [reflexivity |].
  intros H. inversion H as [| ? ? _ H2]. inversion H2 as [| ? ? Hlt _].
  vm_compute in Hlt. discriminate Hlt.
Qed.

(** C1, amended: a text whose trimmed form has 3 to 200 characters and
    repeats no existing text (case aside) is accepted while the collection
    holds fewer than 100 tasks: [addTask] returns [true]; the minutes read
    in the timer field become [minutes * 60] seconds when positive and 0
    otherwise; the new task has the id [taskId + 1], which is above the
    counter, above every id of the collection when the counter bounds
    them, and above the id of every task added earlier with no reload in
    between; it is neither completed nor incomplete, has
    [timerRemainingSeconds = timerSeconds], and [timerEnd] at
    [now + timerSeconds * 1000] when the duration is positive and [null]
    otherwise; it is appended at the end of the collection, and the whole
    collection is written to the store (when the store takes the write).
    A reload sets the counter to the largest id still stored, so the id of
    a task deleted before it can be assigned again. *)
Theorem addTask_success (text0 : string) (env : Env) (st : State) :
  let trimmedText := trim text0 in
  let minutes := match taskTimer env with Some m => m | None => 0 end in
  let seconds := if 0 <? minutes then minutes * 60 else 0 in
  let task :=
    {| id := taskId st + 1;
       text := trimmedText;
       completed := false;
       createdAt := now env;
       timerSeconds := seconds;
       timerRemainingSeconds := seconds;
       timerEnd :=
         if 0 <? seconds then Some (now env + seconds * 1000) else None;
       incomplete := false |} in
  let out := addTask text0 env st in
  (3 <= String.length trimmedText <= 200)%nat ->
  (List.length (tasks st) < 100)%nat ->
  (forall old, In old (tasks st) ->
               toLowerCase (text old) <> toLowerCase trimmedText) ->
  ret out = boolean true
  /\ tasks (after out) = tasks st ++ [task]
  /\ taskId (after out) = id task
  /\ taskId st < id task
  /\ (ids_bounded st -> Forall (fun old => id old < id task) (tasks st))
  /\ (forall st0 text1 env1 ops,
        ret (addTask text1 env1 st0) = boolean true ->
        Forall (fun oe => fst oe <> LoadTasks) ops ->
        st = run_all ops (after (addTask text1 env1 st0)) ->
        id (last (tasks (after (addTask text1 env1 st0))) task) = taskId st0 + 1
        /\ taskId st0 + 1 < id task)
  /\ (quotaExceeded env = false ->
      storage (after out)
      = Some (Records (map toJSON (tasks st ++ [task])))).
Proof.
  intros trimmedText minutes seconds task out Hlen Hroom Hnew.
  assert (Hmin : or_default (taskTimer env) 0 = minutes).
  { unfold or_default, truthy_num, minutes.
    destruct (taskTimer env) as [m |]; [| reflexivity].
    destruct (m =? 0) eqn:E; simpl; [| reflexivity].
    apply Z.eqb_eq in E. now subst. }
  assert (Hout : out
                 = let saved := saveTasks env
                      {| tasks := tasks st ++ [task];
                         taskId := taskId st + 1;
                         storage := storage st |} in
                   {| ret := boolean true; events := events saved;
                      after := after saved |}).
  { unfold out. rewrite addTask_accepts.
    - rewrite Hmin. reflexivity.
    - apply String.eqb_neq. intros E. fold trimmedText in E.
      rewrite E in Hlen. simpl in Hlen. lia.
    - apply Nat.ltb_ge. fold trimmedText. lia.
    - apply Nat.ltb_ge. fold trimmedText. lia.
    - apply Nat.leb_gt. unfold MAX_TASKS. lia.
    - now apply no_duplicate_existsb. }
  rewrite Hout. cbv zeta. simpl ret. simpl after.
  rewrite saveTasks_tasks, saveTasks_taskId. simpl.
  split; [reflexivity |]. split; [reflexivity |]. split; [reflexivity |].
  split; [lia |]. split; [| split].
  - intros Hb. unfold ids_bounded in Hb.
    eapply Forall_impl; [| exact Hb]. simpl. intros; lia.
  - intros st0 text1 env1 ops Hret Hops Hrun.
    destruct (addTask_appends _ _ _ Hret) as (earlier & Ht & Hc & Hid & _).
    split.
    + rewrite Ht, last_last. exact Hid.
    + pose proof (run_all_taskId ops (after (addTask text1 env1 st0)) Hops)
        as Hmono.
      rewrite Hc, <- Hrun in Hmono. lia.
  - intros Hq. now rewrite saveTasks_storage.
Qed.

Lemma addTask_success_witness :
  let env := {| now := 1000; taskTimer := Some 1; quotaExceeded := false |} in
  let out := addTask "  Buy milk " env initial in
  ret out = boolean true
  /\ tasks (after out)
     = [ {| id := 1; text := "Buy milk"; completed := false;
            createdAt := 1000; timerSeconds := 60;
            timerRemainingSeconds := 60; timerEnd := Some 61000;
            incomplete := false |} ].
Proof.
  intros env out.
  destruct (addTask_success "  Buy milk " env initial) as (H1 & H2 & _).
  - vm_compute. lia.
  - simpl. lia.
  - simpl. intros old [].
  - split; [exact H1 | exact H2].
Defined.

(** * Further properties of the script *)

(** ** The shape of every change *)

Lemma Forall2_refl_keys (l : list Task) :
  Forall2 (fun a b => id b = id a /\ text b = text a) l l.
Proof. induction l; constructor; auto. Qed.

Lemma assign_keys (id0 : Z) (t' task : Task) (l : list Task) :
  find (hasId id0) l = Some task ->
  id t' = id task -> text t' = text task ->
  Forall2 (fun a b => id b = id a /\ text b = text a) l (assign id0 t' l).
Proof.
  intros Hf Hid Htx. induction l as [| a l IH]; simpl in *; [constructor |].
  destruct (hasId id0 a).
  - injection Hf as ->. constructor; [auto | apply Forall2_refl_keys].
  - constructor; auto.
Qed.

Lemma saveTasks_shape (env : Env) (st st1 : State) :
  Shape st st1 -> Shape st (after (saveTasks env st1)).
Proof.
  intros H. destruct H as [H1 H2 | f H1 H2 | task H1 H2 H3 H4 H5].
  - apply shape_keys; [now rewrite saveTasks_tasks | now rewrite saveTasks_taskId].
  - apply (shape_filter _ _ f);
      [now rewrite saveTasks_tasks | now rewrite saveTasks_taskId].
  - apply (shape_added _ _ task); auto;
      [now rewrite saveTasks_tasks | now rewrite saveTasks_taskId].
Qed.

Lemma shape_refl (st : State) : Shape st st.
Proof. apply shape_keys; [apply Forall2_refl_keys | reflexivity]. Qed.

Lemma shape_assign (id0 : Z) (t' task : Task) (st : State) :
  find (hasId id0) (tasks st) = Some task ->
  id t' = id task -> text t' = text task ->
  Shape st (with_tasks st (assign id0 t' (tasks st))).
Proof.
  intros Hf Hid Htx. apply shape_keys; [| reflexivity].
  simpl. now apply (assign_keys _ _ task).
Qed.

(** Every operation but a reload changes the collection in one of the
    three ways. *)
Lemma run_shape (op : Op) (env : Env) (st : State) :
  op <> LoadTasks -> Shape st (after (run op env st)).
Proof.
  intros Hop. destruct op; simpl run; try (now elim Hop).
  - destruct (ret (addTask text0 env st)) eqn:Hret;
      try (unfold addTask in *; validations ltac:(apply shape_refl);
           simpl in Hret; discriminate Hret).
    destruct b.
    + destruct (addTask_returns_true _ _ _ Hret) as (E1 & E2 & E3 & E4 & E5).
      rewrite addTask_accepts by assumption. cbv zeta. simpl after.
      apply saveTasks_shape.
      eapply shape_added; simpl; try reflexivity.
      * apply Nat.leb_gt in E4. unfold MAX_TASKS in E4. exact E4.
      * intros old Hin Heq.
        assert (X : existsb (sameText (trim text0)) (tasks st) = true).
        { apply existsb_exists. exists old. split; [exact Hin |].
          unfold sameText. now apply String.eqb_eq. }
        congruence.
    + unfold addTask in *. validations ltac:(apply shape_refl).
      simpl in Hret. discriminate Hret.
  - apply saveTasks_shape. now apply (shape_filter _ _ (fun task => negb (id task =? id0))).
  - unfold toggleTask.
    destruct (find (hasId id0) (tasks st)) as [task |] eqn:Hf;
      [| apply shape_refl].
    apply saveTasks_shape. apply (shape_assign _ _ task _ Hf);
      now destruct (completed task).
  - apply saveTasks_shape.
    now apply (shape_filter _ _ (fun task => negb (completed task))).
  - unfold startTimer.
    destruct (find (hasId id0) (tasks st)) as [task |] eqn:Hf;
      [| apply shape_refl].
    destruct (completed task || incomplete task); [apply shape_refl |].
    destruct (truthy_num (timerEnd task)); [apply shape_refl |].
    name_task1.
    assert (H1 : id task1 = id task /\ text task1 = text task).
    { unfold task1.
      now destruct ((timerRemainingSeconds task =? 0)
                    && negb (timerSeconds task =? 0)). }
    destruct H1 as [H1 H2].
    destruct (0 <? timerRemainingSeconds task1).
    + apply saveTasks_shape. now apply (shape_assign _ _ task _ Hf).
    + simpl. now apply (shape_assign _ _ task _ Hf).
  - unfold pauseTimer.
    destruct (find (hasId id0) (tasks st)) as [task |] eqn:Hf;
      [| apply shape_refl].
    destruct (completed task || incomplete task); [apply shape_refl |].
    destruct (timerEnd task) as [e |]; [| apply shape_refl].
    destruct (e =? 0); [apply shape_refl |].
    apply saveTasks_shape. now apply (shape_assign _ _ task _ Hf).
  - unfold resetTimer.
    destruct (find (hasId id0) (tasks st)) as [task |] eqn:Hf;
      [| apply shape_refl].
    apply saveTasks_shape. now apply (shape_assign _ _ task _ Hf).
  - apply shape_keys.
    + rewrite checkTimers_tasks. apply Forall2_map_same.
      intros task. now destruct (due (now env) task).
    + unfold checkTimers. rewrite checkLoop_spec.
      destruct (existsb _ _); simpl; [| reflexivity].
      now rewrite saveTasks_taskId.
Qed.

Lemma keys_map_id (l l' : list Task) :
  Forall2 (fun a b => id b = id a /\ text b = text a) l l' ->
  map id l' = map id l
  /\ map (fun task => toLowerCase (text task)) l'
     = map (fun task => toLowerCase (text task)) l.
Proof.
  induction 1 as [| a b l l' [H1 H2] _ [IH1 IH2]]; simpl; [auto |].
  now rewrite H1, H2, IH1, IH2.
Qed.

Lemma NoDup_map_filter {A B : Type} (g : A -> B) (f : A -> bool) (l : list A) :
  NoDup (map g l) -> NoDup (map g (filter f l)).
Proof.
  induction l as [| a l IH]; simpl; [auto |].
  intros H. inversion H as [| ? ? Hn Hl]; subst.
  destruct (f a); simpl; [| auto].
  constructor; [| auto].
  intros Hin. apply Hn. apply in_map_iff in Hin.
  destruct Hin as (x & Hx & Hin). apply filter_In in Hin.
  apply in_map_iff. exists x. tauto.
Qed.

Lemma assign_length_eq (id0 : Z) (t' : Task) (l : list Task) :
  List.length (assign id0 t' l) = List.length l.
Proof.
  induction l as [| a l IH]; simpl; [reflexivity |].
  destruct (hasId id0 a); simpl; congruence.
Qed.

Lemma NoDup_snoc {A : Type} (l : list A) (a : A) :
  NoDup l -> ~ In a l -> NoDup (l ++ [a]).
Proof.
  induction l as [| b l IH]; simpl; intros Hd Hn.
  - constructor; [intros [] | constructor].
  - inversion Hd as [| ? ? Hb Hl]; subst. constructor.
    + rewrite in_app_iff. simpl. intros [H | [H | []]]; [now apply Hb |].
      apply Hn. now left.
    + apply IH; [exact Hl |]. intros H. apply Hn. now right.
Qed.

(** ** Looking tasks up *)

Lemma find_filter_other (id0 j : Z) (l : list Task) :
  j <> id0 ->
  find (hasId j) (filter (fun task => negb (id task =? id0)) l)
  = find (hasId j) l.
Proof.
  intros Hj. induction l as [| a l IH]; simpl; [reflexivity |].
  destruct (id a =? id0) eqn:E; simpl.
  - apply Z.eqb_eq in E. unfold hasId at 2.
    replace (id a =? j) with false by (symmetry; apply Z.eqb_neq; lia).
    exact IH.
  - destruct (hasId j a); [reflexivity | exact IH].
Qed.

Lemma find_filter_self (id0 : Z) (l : list Task) :
  find (hasId id0) (filter (fun task => negb (id task =? id0)) l) = None.
Proof.
  induction l as [| a l IH]; simpl; [reflexivity |].
  destruct (id a =? id0) eqn:E; simpl; [exact IH |].
  unfold hasId at 1. now rewrite E.
Qed.

Lemma filter_absent (id0 : Z) (l : list Task) :
  find (hasId id0) l = None ->
  filter (fun task => negb (id task =? id0)) l = l.
Proof.
  induction l as [| a l IH]; simpl; [reflexivity |].
  unfold hasId at 1. destruct (id a =? id0); simpl; [discriminate |].
  intros H. now rewrite IH.
Qed.

Lemma find_bounded (st : State) (j : Z) :
  ids_bounded st -> taskId st < j -> find (hasId j) (tasks st) = None.
Proof.
  unfold ids_bounded. intros Hb Hj.
  destruct (find (hasId j) (tasks st)) as [task |] eqn:Hf; [| reflexivity].
  destruct (find_hasId _ _ _ Hf) as [Hin Hid].
  rewrite Forall_forall in Hb. specialize (Hb _ Hin). lia.
Qed.

Lemma find_app_one (p : Task -> bool) (l : list Task) (x : Task) :
  find p (l ++ [x])
  = match find p l with
    | Some y => Some y
    | None => if p x then Some x else None
    end.
Proof.
  induction l as [| a l IH]; simpl; [reflexivity |].
  destruct (p a); [reflexivity | exact IH].
Qed.

(** X1: after [deleteTask(id)] no task has that id, looking up any other
    id gives what it gave before, and the counter is as it was; when no
    task had the id the collection is unchanged. *)
Theorem deleteTask_lookup (id0 : Z) (env : Env) (st : State) :
  let st' := after (deleteTask id0 env st) in
  getTaskById id0 st' = None
  /\ (forall j, j <> id0 -> getTaskById j st' = getTaskById j st)
  /\ (getTaskById id0 st = None -> tasks st' = tasks st)
  /\ taskId st' = taskId st.
Proof.
  intros st'. unfold st', getTaskById, deleteTask.
  rewrite saveTasks_tasks, saveTasks_taskId. simpl.
  split; [apply find_filter_self |]. split; [| split; [| reflexivity]].
  - intros j Hj. now apply find_filter_other.
  - apply filter_absent.
Qed.

(** X2: in a state where the counter bounds the ids, the task a
    successful [addTask] creates is the one [getTaskById] finds under the
    new id, and every other lookup gives what it gave before. *)
Theorem addTask_lookup (text0 : string) (env : Env) (st : State) :
  ids_bounded st ->
  ret (addTask text0 env st) = boolean true ->
  let st' := after (addTask text0 env st) in
  (exists task,
      getTaskById (taskId st + 1) st' = Some task
      /\ last (tasks st') task = task
      /\ tasks st' = tasks st ++ [task]
      /\ text task = trim text0)
  /\ (forall j, j <> taskId st + 1 -> getTaskById j st' = getTaskById j st).
Proof.
  intros Hb Hret st'.
  destruct (addTask_appends _ _ _ Hret) as (task & Ht & _ & Hid & Htx & _).
  fold st' in Ht. unfold getTaskById. rewrite Ht. split.
  - exists task. rewrite find_app_one, (find_bounded st) by (auto; lia).
    unfold hasId. rewrite Hid, Z.eqb_refl.
    split; [reflexivity |]. split; [apply last_last |]. split; auto.
  - intros j Hj. rewrite find_app_one.
    destruct (find (hasId j) (tasks st)); [reflexivity |].
    unfold hasId. rewrite Hid.
    now replace (taskId st + 1 =? j) with false
      by (symmetry; apply Z.eqb_neq; lia).
Qed.

Lemma addTask_lookup_witness :
  let env := {| now := 1000; taskTimer := None; quotaExceeded := false |} in
  let st := after (addTask "Call mum" env initial) in
  getTaskById 1 (after (addTask "Buy milk" env st)) = getTaskById 1 st.
Proof.
  intros env st.
  refine (proj2 (addTask_lookup "Buy milk" env st _ _) 1 _).
  - repeat constructor. simpl. lia.
  - reflexivity.
  - simpl. lia.
Defined.

(** X3: in a state where the counter bounds the ids, deleting the task
    that [addTask] has just created gives back the collection as it was;
    the counter stays one higher, so the id is not assigned again. *)
Theorem addTask_then_deleteTask
        (text0 : string) (env env' : Env) (st : State) :
  ids_bounded st ->
  ret (addTask text0 env st) = boolean true ->
  let st' := after (deleteTask (taskId st + 1) env'
                      (after (addTask text0 env st))) in
  tasks st' = tasks st /\ taskId st' = taskId st + 1.
Proof.
  intros Hb Hret st'.
  destruct (addTask_appends _ _ _ Hret) as (task & Ht & Hc & Hid & _).
  unfold st', deleteTask. rewrite saveTasks_tasks, saveTasks_taskId. simpl.
  split; [| exact Hc]. rewrite Ht, filter_app. simpl.
  rewrite Hid, Z.eqb_refl. simpl. rewrite app_nil_r.
  apply filter_absent. apply find_bounded; [exact Hb | lia].
Qed.

Lemma addTask_then_deleteTask_witness :
  let env := {| now := 1000; taskTimer := Some 5; quotaExceeded := false |} in
  let st := after (addTask "Call mum" env initial) in
  tasks (after (deleteTask 2 env (after (addTask "Buy milk" env st))))
  = tasks st.
Proof.
  intros env st.
  refine (proj1 (addTask_then_deleteTask "Buy milk" env env st _ _)).
  - repeat constructor. simpl. lia.
  - reflexivity.
Defined.

(** ** Invariants of a session *)

(** X4: when the counter bounds the ids, every operation but a reload
    keeps the ids of the collection distinct. *)
Theorem distinct_ids_kept (op : Op) (env : Env) (st : State) :
  op <> LoadTasks -> ids_bounded st -> distinct_ids st ->
  distinct_ids (after (run op env st)).
Proof.
  intros Hop Hb Hd. unfold distinct_ids in *.
  destruct (run_shape op env st Hop) as [H1 _ | f H1 _ | task H1 H2 _ _ _].
  - destruct (keys_map_id _ _ H1) as [E _]. now rewrite E.
  - rewrite H1. now apply NoDup_map_filter.
  - rewrite H1, map_app. simpl. apply NoDup_snoc; [exact Hd |].
    intros Hin. apply in_map_iff in Hin. destruct Hin as (x & Hx & Hin).
    unfold ids_bounded in Hb. rewrite Forall_forall in Hb.
    specialize (Hb _ Hin). lia.
Qed.

Lemma distinct_ids_kept_witness :
  let env := {| now := 1000; taskTimer := None; quotaExceeded := false |} in
  let st := after (addTask "Call mum" env initial) in
  distinct_ids (after (run (AddTask "Buy milk") env st)).
Proof.
  intros env st.
  refine (distinct_ids_kept (AddTask "Buy milk") env st _ _ _).
  - discriminate.
  - repeat constructor. simpl. lia.
  - repeat constructor. simpl. tauto.
Defined.

(** X5: a collection of at most 100 tasks stays so under every operation
    but a reload. *)
Theorem task_limit_kept (op : Op) (env : Env) (st : State) :
  op <> LoadTasks ->
  (List.length (tasks st) <= 100)%nat ->
  (List.length (tasks (after (run op env st))) <= 100)%nat.
Proof.
  intros Hop Hl.
  destruct (run_shape op env st Hop) as [H1 _ | f H1 _ | task H1 _ _ H4 _].
  - apply Forall2_length in H1. lia.
  - rewrite H1. pose proof (filter_length_le f (tasks st)). lia.
  - rewrite H1, length_app. simpl. lia.
Qed.

Lemma task_limit_kept_witness :
  let env := {| now := 1000; taskTimer := None; quotaExceeded := false |} in
  (List.length (tasks (after (run (AddTask "Buy milk") env initial))) <= 100)%nat.
Proof.
  intros env.
  refine (task_limit_kept (AddTask "Buy milk") env initial _ _).
  - discriminate.
  - simpl. lia.
Defined.

(** X6: texts that are distinct, case aside, stay so under every
    operation but a reload. *)
Theorem distinct_texts_kept (op : Op) (env : Env) (st : State) :
  op <> LoadTasks -> distinct_texts st ->
  distinct_texts (after (run op env st)).
Proof.
  intros Hop Hd. unfold distinct_texts in *.
  destruct (run_shape op env st Hop) as [H1 _ | f H1 _ | task H1 _ _ _ H5].
  - destruct (keys_map_id _ _ H1) as [_ E]. now rewrite E.
  - rewrite H1. now apply NoDup_map_filter.
  - rewrite H1, map_app. simpl. apply NoDup_snoc; [exact Hd |].
    intros Hin. apply in_map_iff in Hin. destruct Hin as (x & Hx & Hin).
    now apply (H5 x Hin).
Qed.

Lemma distinct_texts_kept_witness :
  let env := {| now := 1000; taskTimer := None; quotaExceeded := false |} in
  let st := after (addTask "Call mum" env initial) in
  distinct_texts (after (run (AddTask " call MUM ") env st))
  /\ distinct_texts (after (run (AddTask "Buy milk") env st)).
Proof.
  intros env st.
  assert (Hst : distinct_texts st) by (repeat constructor; simpl; tauto).
  split.
  - refine (distinct_texts_kept (AddTask " call MUM ") env st _ Hst).
    discriminate.
  - refine (distinct_texts_kept (AddTask "Buy milk") env st _ Hst).
    discriminate.
Defined.

(** ** Statistics and views *)

Lemma count_split (f : Task -> bool) (l : list Task) :
  (List.length (filter f l) + List.length (filter (fun x => negb (f x)) l)
   = List.length l)%nat.
Proof.
  induction l as [| a l IH]; simpl; [reflexivity |].
  destruct (f a); simpl; lia.
Qed.

Lemma fold_count (l : list Task) (a : Z) :
  fold_left (fun count _ => count + 1) l a = a + Z.of_nat (List.length l).
Proof.
  revert a. induction l as [| x l IH]; intros a; simpl fold_left.
  - simpl. lia.
  - rewrite IH. simpl List.length. lia.
Qed.

Lemma existsb_count (f : Task -> bool) (l : list Task) :
  existsb f l = true <-> (0 < List.length (filter f l))%nat.
Proof.
  induction l as [| a l IH]; simpl.
  - split; [discriminate | lia].
  - destruct (f a); simpl; [split; [lia | reflexivity] | exact IH].
Qed.

Lemma forallb_count (f : Task -> bool) (l : list Task) :
  forallb f l = true <-> List.length (filter (fun x => negb (f x)) l) = 0%nat.
Proof.
  induction l as [| a l IH]; simpl.
  - split; reflexivity.
  - destruct (f a); simpl; [exact IH | split; [discriminate | lia]].
Qed.

Lemma filter_all (f : Task -> bool) (l : list Task) :
  filter f l = l <-> List.length (filter (fun x => negb (f x)) l) = 0%nat.
Proof.
  induction l as [| a l IH]; simpl.
  - split; reflexivity.
  - destruct (f a) eqn:E; simpl.
    + rewrite <- IH. split; [now intros [= ->] | now intros ->].
    + split; [| discriminate]. intros H.
      pose proof (filter_length_le f l) as Hle. rewrite H in Hle.
      simpl in Hle. lia.
Qed.

(** X7: in the statistics, [remaining], computed as the total less the
    completed, is the number of tasks that are not completed; the completed
    are at most the total; [getTotalTasksCount] is the total,
    [hasCompletedTasks] says that some task is counted as completed and
    [allTasksCompleted] that none remains. *)
Theorem getStats_counts (st : State) :
  let s := getStats st in
  Stats.remaining s
  = Z.of_nat (List.length (filter (fun task => negb (completed task)) (tasks st)))
  /\ 0 <= Stats.completed s <= Stats.total s
  /\ getTotalTasksCount st = Stats.total s
  /\ (hasCompletedTasks st = true <-> 0 < Stats.completed s)
  /\ (allTasksCompleted st = true <-> Stats.remaining s = 0).
Proof.
  intros s. unfold s, getStats, getTotalTasksCount, hasCompletedTasks,
    allTasksCompleted. simpl.
  pose proof (count_split (fun task => completed task) (tasks st)) as Hs.
  cbv beta in Hs.
  split; [lia |]. split; [lia |].
  split; [rewrite fold_count; lia |]. split.
  - rewrite existsb_count. lia.
  - rewrite forallb_count. lia.
Qed.

(** X8: [clearCompleted] keeps the tasks that remained, in order: the
    total becomes what [remaining] was, nothing is counted as completed,
    [remaining] is as before; the collection is left as it was exactly when
    the clear button was disabled; clearing again changes nothing more. *)
Theorem clearCompleted_stats (env env' : Env) (st : State) :
  let st' := after (clearCompleted env st) in
  Stats.total (getStats st') = Stats.remaining (getStats st)
  /\ Stats.completed (getStats st') = 0
  /\ Stats.remaining (getStats st') = Stats.remaining (getStats st)
  /\ hasCompletedTasks st' = false
  /\ (tasks st' = tasks st <-> clearBtnDisabled st = true)
  /\ tasks (after (clearCompleted env' st')) = tasks st'.
Proof.
  intros st'.
  assert (Ht : tasks st' = filter (fun task => negb (completed task)) (tasks st)).
  { unfold st', clearCompleted. now rewrite saveTasks_tasks. }
  assert (Hnone : filter (fun task => completed task) (tasks st') = []).
  { rewrite Ht. clear Ht.
    induction (tasks st) as [| a l IH]; simpl; [reflexivity |].
    destruct (completed a) eqn:E; simpl; [exact IH |]. now rewrite E. }
  pose proof (count_split (fun task => completed task) (tasks st)) as Hs.
  cbv beta in Hs.
  unfold getStats, hasCompletedTasks, clearBtnDisabled. simpl.
  rewrite Hnone. simpl.
  split; [rewrite Ht; lia |]. split; [reflexivity |].
  split; [rewrite Ht; lia |]. split; [| split].
  - destruct (existsb (fun task => completed task) (tasks st')) eqn:E;
      [| reflexivity].
    apply existsb_count in E. rewrite Hnone in E. simpl in E. lia.
  - rewrite Ht, filter_all, Z.eqb_eq.
    replace (filter (fun x => negb (negb (completed x))) (tasks st))
      with (filter (fun task => completed task) (tasks st)).
    + lia.
    + apply filter_ext. intros a. now rewrite negb_involutive.
  - unfold clearCompleted at 1. rewrite saveTasks_tasks. simpl.
    apply filter_all.
    replace (filter (fun x => negb (negb (completed x))) (tasks st'))
      with (filter (fun task => completed task) (tasks st')).
    + now rewrite Hnone.
    + apply filter_ext. intros a. now rewrite negb_involutive.
Qed.

Lemma count_assign (f : Task -> bool) (id0 : Z) (t' task : Task) (l : list Task) :
  find (hasId id0) l = Some task ->
  (Z.of_nat (List.length (filter f (assign id0 t' l)))
   = Z.of_nat (List.length (filter f l))
     - (if f task then 1 else 0) + (if f t' then 1 else 0)).
Proof.
  induction l as [| a l IH]; simpl; [discriminate |].
  destruct (hasId id0 a).
  - intros [= ->]. simpl. destruct (f task), (f t'); simpl List.length; lia.
  - intros H. specialize (IH H). simpl.
    destruct (f a); simpl List.length; lia.
Qed.

(** X9: toggling a task that is found leaves the total as it is and
    moves the count of completed tasks by exactly one: down when the task
    was completed, up when it was not.  Only the first task with the id is
    toggled. *)
Theorem toggleTask_stats (id0 : Z) (env : Env) (st : State) (task : Task) :
  getTaskById id0 st = Some task ->
  let st' := after (toggleTask id0 env st) in
  Stats.total (getStats st') = Stats.total (getStats st)
  /\ Stats.completed (getStats st')
     = Stats.completed (getStats st) + (if completed task then -1 else 1)
  /\ Stats.remaining (getStats st')
     = Stats.remaining (getStats st) + (if completed task then 1 else -1).
Proof.
  intros Hf st'. unfold getTaskById in Hf.
  assert (Ht : exists t', tasks st' = assign id0 t' (tasks st)
                          /\ completed t' = negb (completed task)).
  { unfold st', toggleTask. rewrite Hf, saveTasks_tasks. simpl.
    eexists. split; [reflexivity |]. now destruct (completed task). }
  destruct Ht as (t' & Ht & Hc).
  unfold getStats. simpl. rewrite Ht, assign_length_eq.
  rewrite (count_assign (fun x => completed x) id0 t' task _ Hf), Hc.
  destruct (completed task); simpl; lia.
Qed.

Lemma toggleTask_stats_witness :
  let env := {| now := 1000; taskTimer := None; quotaExceeded := false |} in
  let st := after (addTask "Buy milk" env initial) in
  Stats.completed (getStats (after (toggleTask 1 env st))) = 1.
Proof.
  intros env st.
  assert (Hf : exists task, getTaskById 1 st = Some task)
    by (eexists; reflexivity).
  destruct Hf as [task Hf].
  pose proof (proj1 (proj2 (toggleTask_stats 1 env st task Hf))) as H.
  injection Hf as <-. exact H.
Defined.

Lemma three_way_count (l : list Task) :
  Forall exclusive l ->
  (List.length (filter (fun task => negb (completed task)
                                    && negb (incomplete task)) l)
   + List.length (filter (fun task => completed task) l)
   + List.length (filter (fun task => incomplete task) l)
   = List.length l)%nat.
Proof.
  induction 1 as [| a l Ha _ IH]; simpl; [reflexivity |].
  unfold exclusive in Ha.
  destruct (completed a), (incomplete a); simpl in *;
    try discriminate; lia.
Qed.

(** X10: when no task is both completed and incomplete, the views
    completed, active and incomplete split the collection: each task is in
    exactly one of them, so their sizes add up to the size of the
    collection; whatever the flags, a task of the active view is neither
    completed nor incomplete, and a filter of any other name shows the
    whole collection. *)
Theorem getFilteredTasks_split (st : State) :
  Forall exclusive (tasks st) ->
  (List.length (getFilteredTasks "active" st)
   + List.length (getFilteredTasks "completed" st)
   + List.length (getFilteredTasks "incomplete" st)
   = List.length (getFilteredTasks "all" st))%nat
  /\ (forall task,
        In task (tasks st) ->
        (In task (getFilteredTasks "active" st)
         /\ ~ In task (getFilteredTasks "completed" st)
         /\ ~ In task (getFilteredTasks "incomplete" st))
        \/ (~ In task (getFilteredTasks "active" st)
            /\ In task (getFilteredTasks "completed" st)
            /\ ~ In task (getFilteredTasks "incomplete" st))
        \/ (~ In task (getFilteredTasks "active" st)
            /\ ~ In task (getFilteredTasks "completed" st)
            /\ In task (getFilteredTasks "incomplete" st)))
  /\ (forall name,
        name <> "completed"%string -> name <> "active"%string ->
        name <> "incomplete"%string ->
        getFilteredTasks name st = tasks st).
Proof.
  intros Hex. unfold getFilteredTasks. simpl. split; [| split].
  - now apply three_way_count.
  - intros task Hin. rewrite !filter_In.
    rewrite Forall_forall in Hex. specialize (Hex _ Hin).
    unfold exclusive in Hex.
    destruct (completed task), (incomplete task); simpl in *;
      try discriminate; intuition discriminate.
  - intros name H1 H2 H3.
    apply String.eqb_neq in H1, H2, H3. now rewrite H1, H2, H3.
Qed.

Lemma getFilteredTasks_split_witness :
  let env := {| now := 1000; taskTimer := None; quotaExceeded := false |} in
  let st := after (toggleTask 1 env
                     (after (addTask "Buy milk" env
                               (after (addTask "Call mum" env initial))))) in
  (List.length (getFilteredTasks "active" st)
   + List.length (getFilteredTasks "completed" st)
   + List.length (getFilteredTasks "incomplete" st)
   = List.length (getFilteredTasks "all" st))%nat.
Proof.
  intros env st.
  refine (proj1 (getFilteredTasks_split st _)).
  repeat constructor.
Defined.

Lemma saveTasks_exclusive (env : Env) (st : State) :
  Forall exclusive (tasks st) ->
  Forall exclusive (tasks (after (saveTasks env st))).
Proof. now rewrite saveTasks_tasks. Qed.

(** X11: no operation but a reload makes a task both completed and
    incomplete: completing a task clears [incomplete], the expiry check
    marks only tasks that are not completed, and the others leave the two
    flags alone or clear [incomplete]. *)
Theorem exclusive_kept (op : Op) (env : Env) (st : State) :
  op <> LoadTasks ->
  Forall exclusive (tasks st) ->
  Forall exclusive (tasks (after (run op env st))).
Proof.
  intros Hop Hex.
  assert (Hfound : forall id0 task, find (hasId id0) (tasks st) = Some task ->
                                    exclusive task).
  { intros id0 task Hf. destruct (find_hasId _ _ _ Hf) as [Hin _].
    rewrite Forall_forall in Hex. now apply Hex. }
  destruct op; simpl run; try (now elim Hop).
  - unfold addTask. validations ltac:(exact Hex).
    simpl. apply saveTasks_exclusive. simpl.
    apply Forall_app. split; [exact Hex |]. repeat constructor.
  - apply saveTasks_exclusive. simpl. now apply Forall_filter.
  - unfold toggleTask.
    destruct (find (hasId id0) (tasks st)) as [task |] eqn:Hf; [| exact Hex].
    apply saveTasks_exclusive. simpl. apply assign_Forall; [exact Hex |].
    unfold exclusive. now destruct (completed task).
  - apply saveTasks_exclusive. simpl. now apply Forall_filter.
  - unfold startTimer.
    destruct (find (hasId id0) (tasks st)) as [task |] eqn:Hf; [| exact Hex].
    destruct (completed task) eqn:Ec; simpl; [exact Hex |].
    destruct (incomplete task) eqn:Ei; simpl; [exact Hex |].
    destruct (truthy_num (timerEnd task)); [exact Hex |].
    name_task1.
    assert (H1 : exclusive task1).
    { unfold task1, exclusive.
      destruct ((timerRemainingSeconds task =? 0)
                && negb (timerSeconds task =? 0)); simpl; now rewrite Ec. }
    destruct (0 <? timerRemainingSeconds task1).
    + apply saveTasks_exclusive. simpl. now apply assign_Forall.
    + simpl. now apply assign_Forall.
  - unfold pauseTimer.
    destruct (find (hasId id0) (tasks st)) as [task |] eqn:Hf; [| exact Hex].
    destruct (completed task) eqn:Ec; simpl; [exact Hex |].
    destruct (incomplete task) eqn:Ei; simpl; [exact Hex |].
    destruct (timerEnd task) as [e |]; [| exact Hex].
    destruct (e =? 0); [exact Hex |].
    apply saveTasks_exclusive. simpl. apply assign_Forall; [exact Hex |].
    unfold exclusive. simpl. now rewrite Ec.
  - unfold resetTimer.
    destruct (find (hasId id0) (tasks st)) as [task |] eqn:Hf; [| exact Hex].
    apply saveTasks_exclusive. simpl. apply assign_Forall; [exact Hex |].
    unfold exclusive. simpl. apply andb_false_r.
  - rewrite checkTimers_tasks, Forall_map.
    eapply Forall_impl; [| exact Hex]. intros task Ht.
    destruct (due (now env) task) eqn:Ed; [| exact Ht].
    unfold exclusive, due in *. simpl.
    destruct (completed task); [| reflexivity].
    rewrite andb_false_r in Ed. discriminate Ed.
Qed.

Lemma exclusive_kept_witness :
  let env := {| now := 70000; taskTimer := Some 1; quotaExceeded := false |} in
  let st := after (addTask "Buy milk"
                     {| now := 1000; taskTimer := Some 1;
                        quotaExceeded := false |} initial) in
  Forall exclusive (tasks (after (run CheckTimers env st))).
Proof.
  intros env st.
  refine (exclusive_kept CheckTimers env st _ _).
  - discriminate.
  - repeat constructor.
Defined.

(** X12: a second expiry check at the same clock changes nothing and
    shows nothing; a check that finds no timer due leaves the state as it
    is, the store included, and shows nothing. *)
Theorem checkTimers_idempotent (env : Env) (st : State) :
  let once := checkTimers env st in
  let twice := checkTimers env (after once) in
  after twice = after once
  /\ events twice = []
  /\ (existsb (due (now env)) (tasks st) = false ->
      once = {| ret := undefined; events := []; after := st |}).
Proof.
  intros once twice.
  assert (Hno : existsb (due (now env)) (tasks (after once)) = false).
  { unfold once. rewrite checkTimers_tasks.
    destruct (existsb _ _) eqn:E; [| reflexivity].
    apply existsb_exists in E. destruct E as (x & Hin & Hx).
    apply in_map_iff in Hin. destruct Hin as (y & Hy & _). subst x.
    destruct (due (now env) y) eqn:Ed; [discriminate Hx | congruence]. }
  assert (Hquiet : forall s, existsb (due (now env)) (tasks s) = false ->
                             checkTimers env s
                             = {| ret := undefined; events := []; after := s |}).
  { intros s Hs. unfold checkTimers. rewrite checkLoop_spec, Hs.
    replace (filter (due (now env)) (tasks s)) with (@nil Task);
      [reflexivity |].
    symmetry. induction (tasks s) as [| a l IH]; simpl in *; [reflexivity |].
    destruct (due (now env) a); [discriminate Hs | now apply IH]. }
  split; [| split].
  - unfold twice. now rewrite Hquiet.
  - unfold twice. now rewrite Hquiet.
  - apply Hquiet.
Qed.

(** X13: once a text has been added, adding a text that differs from it
    only in case or in outer white space is rejected and changes nothing. *)
Theorem addTask_twice_rejected
        (text1 text2 : string) (env env' : Env) (st : State) :
  ret (addTask text1 env st) = boolean true ->
  toLowerCase (trim text2) = toLowerCase (trim text1) ->
  let st' := after (addTask text1 env st) in
  ret (addTask text2 env' st') = boolean false
  /\ after (addTask text2 env' st') = st'.
Proof.
  intros Hret Heq st'.
  destruct (addTask_appends _ _ _ Hret) as (task & Ht & _ & _ & Htx & _).
  fold st' in Ht.
  assert (X : existsb (sameText (trim text2)) (tasks st') = true).
  { apply existsb_exists. exists task. split.
    - rewrite Ht. apply in_or_app. right. now left.
    - unfold sameText. rewrite Htx, Heq. apply String.eqb_refl. }
  unfold addTask. rewrite X.
  destruct (trim text2 =? "")%string; [split; reflexivity |].
  destruct (String.length (trim text2) <? 3)%nat; [split; reflexivity |].
  destruct (200 <? String.length (trim text2))%nat; [split; reflexivity |].
  destruct (MAX_TASKS <=? List.length (tasks st'))%nat; split; reflexivity.
Qed.

Lemma addTask_twice_rejected_witness :
  let env := {| now := 1000; taskTimer := None; quotaExceeded := false |} in
  ret (addTask "  buy MILK" env (after (addTask "Buy milk" env initial)))
  = boolean false.
Proof.
  intros env.
  refine (proj1 (addTask_twice_rejected "Buy milk" "  buy MILK" env env
                   initial _ _)).
  - reflexivity.
  - reflexivity.
Defined.

(** ** Starting, pausing and resetting in sequence *)

Lemma assign_found_same (id0 : Z) (task : Task) (l : list Task) :
  find (hasId id0) l = Some task -> assign id0 task l = l.
Proof.
  induction l as [| a l IH]; simpl; [reflexivity |].
  destruct (hasId id0 a); [now intros [= ->] |].
  intros H. now rewrite IH.
Qed.

Lemma assign_assign (id0 : Z) (a b : Task) (l : list Task) :
  id a = id0 -> assign id0 b (assign id0 a l) = assign id0 b l.
Proof.
  intros Ha. induction l as [| x l IH]; simpl; [reflexivity |].
  destruct (hasId id0 x) eqn:E; simpl.
  - unfold hasId. now rewrite Ha, Z.eqb_refl.
  - now rewrite E, IH.
Qed.

Lemma round_exact (r : Z) : round_div_1000 (r * 1000) = r.
Proof.
  unfold round_div_1000. symmetry.
  apply (Z.div_unique_pos _ _ _ 500); lia.
Qed.

Lemma round_near (d : Z) :
  -500 < round_div_1000 d * 1000 - d <= 500.
Proof.
  unfold round_div_1000.
  pose proof (Z.div_mod (d + 500) 1000 ltac:(lia)) as H.
  pose proof (Z.mod_pos_bound (d + 500) 1000 ltac:(lia)) as Hm.
  lia.
Qed.

(** X14: starting a stopped timer and pausing it at the same instant
    leaves every task as it was: the pause reads back the seconds the start
    counted from. *)
Theorem startTimer_then_pauseTimer
        (id0 : Z) (env : Env) (st : State) (task : Task) :
  getTaskById id0 st = Some task ->
  completed task = false -> incomplete task = false ->
  timerEnd task = None ->
  0 < timerRemainingSeconds task ->
  0 < now env ->
  tasks (after (pauseTimer id0 env (after (startTimer id0 env st))))
  = tasks st.
Proof.
  unfold getTaskById. intros Hf Hc Hi He Hr Hnow.
  destruct (find_hasId _ _ _ Hf) as [_ Hid].
  set (e := now env + timerRemainingSeconds task * 1000).
  assert (H1 : tasks (after (startTimer id0 env st))
               = assign id0 (setTimerEnd task (Some e)) (tasks st)).
  { rewrite (startTimer_found _ _ _ _ Hf Hc Hi); [| now rewrite He | exact Hr].
    now rewrite saveTasks_tasks. }
  assert (Hf1 : find (hasId id0) (tasks (after (startTimer id0 env st)))
                = Some (setTimerEnd task (Some e))).
  { rewrite H1. now apply (find_assign _ _ _ task). }
  rewrite (pauseTimer_found _ _ _ _ e Hf1); auto; [| unfold e; lia].
  rewrite saveTasks_tasks. simpl. rewrite H1, assign_assign by exact Hid.
  replace (e - now env) with (timerRemainingSeconds task * 1000)
    by (unfold e; lia).
  rewrite round_exact, Z.max_r by lia.
  replace (setTimerEnd (setRemaining (setTimerEnd task (Some e))
                          (timerRemainingSeconds task)) None)
    with task.
  - now apply assign_found_same.
  - destruct task. simpl in *. subst. reflexivity.
Qed.

Lemma startTimer_then_pauseTimer_witness :
  let env0 := {| now := 1000; taskTimer := Some 1; quotaExceeded := false |} in
  let env := {| now := 9000; taskTimer := None; quotaExceeded := false |} in
  let st := after (pauseTimer 1 env (after (addTask "Buy milk" env0 initial))) in
  tasks (after (pauseTimer 1 env (after (startTimer 1 env st)))) = tasks st.
Proof.
  intros env0 env st.
  refine (startTimer_then_pauseTimer 1 env st
            (mkTask 1 "Buy milk" false 1000 60 52 None false) _ _ _ _ _ _);
    reflexivity.
Defined.

(** X15: pausing a running timer with at least half a second left and
    starting it again at the same instant keeps the remaining time to the
    second and moves the timer end by no more than half a second. *)
Theorem pauseTimer_then_startTimer_drift
        (id0 : Z) (env : Env) (st : State) (task : Task) (e : Z) :
  getTaskById id0 st = Some task ->
  completed task = false -> incomplete task = false ->
  timerEnd task = Some e -> e <> 0 ->
  500 <= e - now env ->
  let st' := after (startTimer id0 env (after (pauseTimer id0 env st))) in
  let r := round_div_1000 (e - now env) in
  exists task',
    getTaskById id0 st' = Some task'
    /\ timerRemainingSeconds task' = r
    /\ timerEnd task' = Some (now env + r * 1000)
    /\ -500 < now env + r * 1000 - e <= 500.
Proof.
  intros Hf Hc Hi He Hne Hleft st' r. unfold getTaskById in *.
  destruct (find_hasId _ _ _ Hf) as [_ Hid].
  pose proof (round_near (e - now env)) as Hnear. fold r in Hnear.
  assert (Hr : 0 < r) by lia.
  set (paused := setTimerEnd (setRemaining task (Z.max 0 r)) None).
  assert (Hf1 : find (hasId id0) (tasks (after (pauseTimer id0 env st)))
                = Some paused).
  { rewrite (pauseTimer_found _ _ _ _ e Hf); auto.
    rewrite saveTasks_tasks. simpl. now apply (find_assign _ _ _ task). }
  assert (Hp : timerRemainingSeconds paused = r)
    by (unfold paused; simpl; lia).
  exists (setTimerEnd paused (Some (now env + r * 1000))).
  split; [| split; [exact Hp | split; [reflexivity | lia]]].
  unfold st'. rewrite (startTimer_found _ _ _ _ Hf1); auto; [| lia].
  rewrite saveTasks_tasks. simpl. rewrite Z.max_r by lia.
  now apply (find_assign _ _ _ paused).
Qed.

Lemma pauseTimer_then_startTimer_drift_witness :
  let env0 := {| now := 1000; taskTimer := Some 1; quotaExceeded := false |} in
  let env := {| now := 31400; taskTimer := None; quotaExceeded := false |} in
  let st := after (addTask "Buy milk" env0 initial) in
  exists task',
    getTaskById 1 (after (startTimer 1 env (after (pauseTimer 1 env st))))
    = Some task'
    /\ timerRemainingSeconds task' = 30
    /\ timerEnd task' = Some 61400.
Proof.
  intros env0 env st.
  destruct (pauseTimer_then_startTimer_drift 1 env st
              (mkTask 1 "Buy milk" false 1000 60 60 (Some 61000) false) 61000)
    as (task' & H1 & H2 & H3 & _);
    try reflexivity; try discriminate; try (simpl; lia).
  exists task'. split; [exact H1 |]. split; [exact H2 | exact H3].
Defined.

(** X16: pausing a running timer with less than half a second left (or
    already past its end) stores 0, and a start then gives the task its
    full duration again. *)
Theorem pauseTimer_late_then_startTimer
        (id0 : Z) (env env' : Env) (st : State) (task : Task) (e : Z) :
  getTaskById id0 st = Some task ->
  completed task = false -> incomplete task = false ->
  timerEnd task = Some e -> e <> 0 ->
  e - now env < 500 ->
  0 < timerSeconds task ->
  let st1 := after (pauseTimer id0 env st) in
  let st2 := after (startTimer id0 env' st1) in
  (exists paused,
      getTaskById id0 st1 = Some paused
      /\ timerRemainingSeconds paused = 0 /\ timerEnd paused = None)
  /\ (exists task',
        getTaskById id0 st2 = Some task'
        /\ timerRemainingSeconds task' = timerSeconds task
        /\ timerEnd task' = Some (now env' + timerSeconds task * 1000)).
Proof.
  intros Hf Hc Hi He Hne Hleft Hs st1 st2. unfold getTaskById in *.
  destruct (find_hasId _ _ _ Hf) as [_ Hid].
  assert (Hr : Z.max 0 (round_div_1000 (e - now env)) = 0).
  { pose proof (round_near (e - now env)). lia. }
  set (paused := setTimerEnd (setRemaining task 0) None).
  assert (Hf1 : find (hasId id0) (tasks st1) = Some paused).
  { unfold st1. rewrite (pauseTimer_found _ _ _ _ e Hf); auto.
    rewrite saveTasks_tasks, Hr. simpl. now apply (find_assign _ _ _ task). }
  split; [exists paused; auto |].
  unfold st2, startTimer. rewrite Hf1. simpl. rewrite Hc, Hi. simpl.
  replace (timerSeconds task =? 0) with false
    by (symmetry; apply Z.eqb_neq; lia).
  simpl.
  replace (0 <? timerSeconds task) with true
    by (symmetry; apply Z.ltb_lt; lia).
  rewrite saveTasks_tasks. simpl.
  eexists. split; [now apply (find_assign _ _ _ paused) |].
  split; reflexivity.
Qed.

Lemma pauseTimer_late_then_startTimer_witness :
  let env0 := {| now := 1000; taskTimer := Some 1; quotaExceeded := false |} in
  let env := {| now := 60600; taskTimer := None; quotaExceeded := false |} in
  let st := after (addTask "Buy milk" env0 initial) in
  exists task',
    getTaskById 1 (after (startTimer 1 env (after (pauseTimer 1 env st))))
    = Some task'
    /\ timerRemainingSeconds task' = 60
    /\ timerEnd task' = Some 120600.
Proof.
  intros env0 env st.
  destruct (pauseTimer_late_then_startTimer 1 env env st
              (mkTask 1 "Buy milk" false 1000 60 60 (Some 61000) false) 61000)
    as (_ & task' & H1 & H2 & H3);
    try reflexivity; try discriminate; try (simpl; lia).
  exists task'. split; [exact H1 |]. split; [exact H2 | exact H3].
Defined.

(** X17: resetting a task that is not completed and starting it counts
    its full duration from the start, whatever its timer was doing and
    also when it had expired. *)
Theorem resetTimer_then_startTimer
        (id0 : Z) (env env' : Env) (st : State) (task : Task) :
  getTaskById id0 st = Some task ->
  completed task = false ->
  0 < timerSeconds task ->
  getTaskById id0 (after (startTimer id0 env' (after (resetTimer id0 env st))))
  = Some {| id := id task; text := text task; completed := false;
            createdAt := createdAt task; timerSeconds := timerSeconds task;
            timerRemainingSeconds := timerSeconds task;
            timerEnd := Some (now env' + timerSeconds task * 1000);
            incomplete := false |}.
Proof.
  unfold getTaskById. intros Hf Hc Hs.
  destruct (find_hasId _ _ _ Hf) as [_ Hid].
  set (fresh := setIncomplete
                  (setTimerEnd (setRemaining task (timerSeconds task)) None)
                  false).
  assert (Hf1 : find (hasId id0) (tasks (after (resetTimer id0 env st)))
                = Some fresh).
  { unfold resetTimer. rewrite Hf, saveTasks_tasks. simpl.
    rewrite or_default_some. now apply (find_assign _ _ _ task). }
  rewrite (startTimer_found _ _ _ _ Hf1); auto.
  rewrite saveTasks_tasks. cbn [tasks with_tasks].
  erewrite find_assign; [| exact Hf1 | exact Hid].
  unfold setTimerEnd, fresh. simpl. now rewrite Hc.
Qed.

Lemma resetTimer_then_startTimer_witness :
  let env0 := {| now := 1000; taskTimer := Some 1; quotaExceeded := false |} in
  let env := {| now := 70000; taskTimer := None; quotaExceeded := false |} in
  let st := after (checkTimers env (after (addTask "Buy milk" env0 initial))) in
  getTaskById 1 (after (startTimer 1 env (after (resetTimer 1 env st))))
  = Some {| id := 1; text := "Buy milk"; completed := false;
            createdAt := 1000; timerSeconds := 60;
            timerRemainingSeconds := 60; timerEnd := Some 130000;
            incomplete := false |}.
Proof.
  intros env0 env st.
  refine (resetTimer_then_startTimer 1 env env st
            (mkTask 1 "Buy milk" false 1000 60 0 None true) _ _ _);
    reflexivity.
Defined.

(** ** The store *)

Lemma saveTasks_full (env : Env) (st : State) :
  quotaExceeded env = true -> after (saveTasks env st) = st.
Proof. unfold saveTasks. intros ->. reflexivity. Qed.

Lemma saveTasks_in_sync (env : Env) (st : State) :
  quotaExceeded env = false -> in_sync (after (saveTasks env st)).
Proof. unfold saveTasks, in_sync. intros ->. reflexivity. Qed.

Lemma with_tasks_same (st : State) : with_tasks st (tasks st) = st.
Proof. now destruct st. Qed.

(** X18: while the store refuses writes, no operation changes what it
    holds: the changes are made in memory only. *)
Theorem store_untouched_when_full (op : Op) (env : Env) (st : State) :
  quotaExceeded env = true ->
  storage (after (run op env st)) = storage st.
Proof.
  intros Hq.
  assert (Hsave : forall s, storage s = storage st ->
                            storage (after (saveTasks env s)) = storage st).
  { intros s Hs. now rewrite saveTasks_full. }
  destruct op; simpl run.
  - unfold addTask. validations ltac:(reflexivity). simpl. now apply Hsave.
  - now apply Hsave.
  - unfold toggleTask. destruct (find _ _); [now apply Hsave | reflexivity].
  - now apply Hsave.
  - unfold startTimer. destruct (find _ _) as [task |]; [| reflexivity].
    destruct (completed task || incomplete task); [reflexivity |].
    destruct (truthy_num (timerEnd task)); [reflexivity |].
    name_task1.
    destruct (0 <? timerRemainingSeconds task1);
      [now apply Hsave | reflexivity].
  - unfold pauseTimer. destruct (find _ _) as [task |]; [| reflexivity].
    destruct (completed task || incomplete task); [reflexivity |].
    destruct (timerEnd task) as [e |]; [| reflexivity].
    destruct (e =? 0); [reflexivity | now apply Hsave].
  - unfold resetTimer. destruct (find _ _); [now apply Hsave | reflexivity].
  - unfold checkTimers. rewrite checkLoop_spec.
    destruct (existsb _ _); simpl; [now apply Hsave | reflexivity].
  - unfold loadTasks. destruct (storage st) as [[s | | rs] |] eqn:Es;
      try destruct (s =? "")%string; simpl; congruence.
Qed.

Lemma store_untouched_when_full_witness :
  let env := {| now := 1000; taskTimer := None; quotaExceeded := true |} in
  storage (after (run (AddTask "Buy milk") env initial)) = None
  /\ List.length (tasks (after (run (AddTask "Buy milk") env initial))) = 1%nat.
Proof.
  intros env. split.
  - refine (store_untouched_when_full (AddTask "Buy milk") env initial _).
    reflexivity.
  - reflexivity.
Defined.

(** X19: while the store takes writes and no duration is negative, an
    operation other than a reload either leaves the state as it is or
    leaves in the store exactly the collection that is in memory. *)
Theorem store_in_sync (op : Op) (env : Env) (st : State) :
  quotaExceeded env = false ->
  op <> LoadTasks ->
  Forall (fun task => 0 <= timerSeconds task) (tasks st) ->
  after (run op env st) = st \/ in_sync (after (run op env st)).
Proof.
  intros Hq Hop Hpos.
  assert (Hsave : forall s, in_sync (after (saveTasks env s)))
    by (intros s; now apply saveTasks_in_sync).
  destruct op; simpl run; try (now elim Hop).
  - unfold addTask. validations ltac:(left; reflexivity). right. apply Hsave.
  - right. apply Hsave.
  - unfold toggleTask. destruct (find _ _); [right; apply Hsave | now left].
  - right. apply Hsave.
  - unfold startTimer.
    destruct (find (hasId id0) (tasks st)) as [task |] eqn:Hf; [| now left].
    destruct (completed task || incomplete task); [now left |].
    destruct (truthy_num (timerEnd task)); [now left |].
    destruct (find_hasId _ _ _ Hf) as [Hin _].
    rewrite Forall_forall in Hpos. specialize (Hpos _ Hin).
    destruct ((timerRemainingSeconds task =? 0)
              && negb (timerSeconds task =? 0)) eqn:E.
    + apply andb_prop in E. destruct E as [_ E].
      apply negb_true_iff, Z.eqb_neq in E. simpl.
      replace (0 <? timerSeconds task) with true
        by (symmetry; apply Z.ltb_lt; lia).
      right. apply Hsave.
    + destruct (0 <? timerRemainingSeconds task); [right; apply Hsave |].
      left. simpl. now rewrite assign_found_same, with_tasks_same.
  - unfold pauseTimer. destruct (find _ _) as [task |]; [| now left].
    destruct (completed task || incomplete task); [now left |].
    destruct (timerEnd task) as [e |]; [| now left].
    destruct (e =? 0); [now left | right; apply Hsave].
  - unfold resetTimer. destruct (find _ _); [right; apply Hsave | now left].
  - unfold checkTimers. rewrite checkLoop_spec.
    destruct (existsb _ _); simpl; [right; apply Hsave | now left].
Qed.

Lemma store_in_sync_witness :
  let env := {| now := 1000; taskTimer := Some 2; quotaExceeded := false |} in
  let st := after (addTask "Buy milk" env initial) in
  after (run (PauseTimer 1) env st) = st
  \/ in_sync (after (run (PauseTimer 1) env st)).
Proof.
  intros env st.
  refine (store_in_sync (PauseTimer 1) env st _ _ _).
  - reflexivity.
  - discriminate.
  - repeat constructor. simpl. lia.
Defined.



(** ** The timer controls of a list item *)

Lemma timerBlock_fields (clock : Z) (task : Task) (b : TimerBlock) :
  timerBlock clock task = Some b ->
  0 < timerSeconds task
  /\ label b = (if incomplete task then Expired
                else Time (formatTime (shownSeconds clock task)))
  /\ startDisabled b = isRunning task || completed task || incomplete task
  /\ pauseDisabled b
     = negb (isRunning task) || completed task || incomplete task
  /\ resetDisabled b = false.
Proof.
  unfold timerBlock.
  destruct (timerSeconds task =? 0) eqn:E0; [discriminate |].
  destruct (0 <? timerSeconds task) eqn:E1; [| discriminate].
  simpl. intros [= <-]. simpl. apply Z.ltb_lt in E1. auto.
Qed.

(** X21: a timer button that the list shows disabled does nothing when
    its handler is called all the same: with start disabled [startTimer]
    leaves the state as it is, with pause disabled [pauseTimer] does; one
    of the two is always disabled, and reset never is. *)
Theorem disabled_buttons_do_nothing
        (id0 clock : Z) (env : Env) (st : State) (task : Task)
        (b : TimerBlock) :
  getTaskById id0 st = Some task ->
  timerBlock clock task = Some b ->
  (startDisabled b = true ->
   startTimer id0 env st = {| ret := undefined; events := []; after := st |})
  /\ (pauseDisabled b = true ->
      pauseTimer id0 env st = {| ret := undefined; events := []; after := st |})
  /\ (startDisabled b = true \/ pauseDisabled b = true)
  /\ resetDisabled b = false.
Proof.
  unfold getTaskById. intros Hf Hb.
  destruct (timerBlock_fields _ _ _ Hb) as (_ & _ & Hs & Hp & Hr).
  rewrite Hs, Hp. unfold isRunning, startTimer, pauseTimer. rewrite Hf.
  destruct (completed task), (incomplete task),
    (timerEnd task) as [e |]; simpl; try destruct (e =? 0); simpl;
    (split; [intros H; first [reflexivity | discriminate H] |]);
    (split; [intros H; first [reflexivity | discriminate H] |]);
    (split; [first [left; reflexivity | right; reflexivity] | exact Hr]).
Qed.

Lemma disabled_buttons_do_nothing_witness :
  let env0 := {| now := 1000; taskTimer := Some 1; quotaExceeded := false |} in
  let env := {| now := 5000; taskTimer := None; quotaExceeded := false |} in
  let st := after (addTask "Buy milk" env0 initial) in
  startTimer 1 env st = {| ret := undefined; events := []; after := st |}.
Proof.
  intros env0 env st.
  refine (proj1 (disabled_buttons_do_nothing 1 5000 env st
                   (mkTask 1 "Buy milk" false 1000 60 60 (Some 61000) false)
                   (mkTimerBlock (Time "00:56") true false false) _ _) _);
    reflexivity.
Defined.

(** X22: the time the list shows is the time the timers work with.
    With the pause button enabled, [pauseTimer] at the same clock stores
    the seconds on display; with the start button enabled and a remaining
    time that is not negative, [startTimer] sets the timer to end that
    many seconds from now. *)
Theorem shown_time_is_used
        (id0 : Z) (env : Env) (st : State) (task : Task) (b : TimerBlock) :
  getTaskById id0 st = Some task ->
  timerBlock (now env) task = Some b ->
  0 <= timerRemainingSeconds task ->
  let shown := shownSeconds (now env) task in
  (pauseDisabled b = false ->
   label b = Time (formatTime shown)
   /\ exists task',
       getTaskById id0 (after (pauseTimer id0 env st)) = Some task'
       /\ timerRemainingSeconds task' = shown
       /\ timerEnd task' = None)
  /\ (startDisabled b = false ->
      label b = Time (formatTime shown)
      /\ exists task',
          getTaskById id0 (after (startTimer id0 env st)) = Some task'
          /\ timerRemainingSeconds task' = shown
          /\ timerEnd task' = Some (now env + shown * 1000)).
Proof.
  intros Hf Hb Hrem shown. unfold getTaskById in *.
  destruct (find_hasId _ _ _ Hf) as [_ Hid].
  destruct (timerBlock_fields _ _ _ Hb) as (Hpos & Hl & Hs & Hp & _).
  rewrite Hs, Hp, Hl. unfold isRunning. split.
  - intros H.
    destruct (completed task) eqn:Ec; [now rewrite orb_true_r in H |].
    destruct (incomplete task) eqn:Ei; [now rewrite orb_true_r in H |].
    simpl in H. rewrite !andb_true_r, !orb_false_r in H.
    apply negb_false_iff in H. unfold truthy_num in H.
    destruct (timerEnd task) as [e |] eqn:Ee; [| discriminate].
    apply negb_true_iff in H.
    split; [reflexivity |].
    assert (Hshown : shown = Z.max 0 (round_div_1000 (e - now env))).
    { unfold shown, shownSeconds. now rewrite Ee, H. }
    apply Z.eqb_neq in H.
    rewrite (pauseTimer_found _ _ _ _ e Hf Ec Ei Ee H).
    rewrite saveTasks_tasks. simpl.
    eexists. split; [now apply (find_assign _ _ _ task) |].
    simpl. now rewrite Hshown.
  - intros H.
    destruct (completed task) eqn:Ec; [now rewrite orb_true_r in H |].
    destruct (incomplete task) eqn:Ei; [now rewrite orb_true_r in H |].
    simpl in H. rewrite !andb_true_r, !orb_false_r in H.
    split; [reflexivity |].
    assert (Hshown : shown = if timerRemainingSeconds task =? 0
                             then timerSeconds task
                             else timerRemainingSeconds task).
    { unfold shown, shownSeconds. unfold truthy_num in H.
      destruct (timerEnd task) as [e |]; [| reflexivity].
      apply negb_false_iff in H. now rewrite H. }
    unfold startTimer. rewrite Hf, Ec, Ei, H. simpl.
    replace (timerSeconds task =? 0) with false
      by (symmetry; apply Z.eqb_neq; lia).
    rewrite andb_true_r.
    destruct (timerRemainingSeconds task =? 0) eqn:E0; simpl.
    + replace (0 <? timerSeconds task) with true
        by (symmetry; apply Z.ltb_lt; lia).
      rewrite saveTasks_tasks. simpl.
      eexists. split; [now apply (find_assign _ _ _ task) |].
      simpl. now rewrite Hshown.
    + apply Z.eqb_neq in E0.
      replace (0 <? timerRemainingSeconds task) with true
        by (symmetry; apply Z.ltb_lt; lia).
      rewrite saveTasks_tasks. simpl.
      eexists. split; [now apply (find_assign _ _ _ task) |].
      simpl. now rewrite Hshown.
Qed.

Lemma shown_time_is_used_witness :
  let env0 := {| now := 1000; taskTimer := Some 1; quotaExceeded := false |} in
  let env := {| now := 5400; taskTimer := None; quotaExceeded := false |} in
  let st := after (addTask "Buy milk" env0 initial) in
  exists task',
    getTaskById 1 (after (pauseTimer 1 env st)) = Some task'
    /\ timerRemainingSeconds task' = 56.
Proof.
  intros env0 env st.
  destruct (proj1 (shown_time_is_used 1 env st
                     (mkTask 1 "Buy milk" false 1000 60 60 (Some 61000) false)
                     (mkTimerBlock (Time "00:56") true false false)
                     eq_refl eq_refl ltac:(simpl; lia)) eq_refl)
    as (_ & task' & H1 & H2 & _).
  exists task'. split; [exact H1 | exact H2].
Defined.

(** ** The text of a time *)

Lemma length_append (a b : string) :
  String.length (a ++ b) = (String.length a + String.length b)%nat.
Proof. induction a as [| c a IH]; simpl; [reflexivity | now rewrite IH]. Qed.

Lemma append_same_suffix (x x' y y' : string) :
  (x ++ y)%string = (x' ++ y')%string ->
  String.length y = String.length y' ->
  x = x' /\ y = y'.
Proof.
  revert x'. induction x as [| c x IH]; intros [| c' x'] H Hl; simpl in H.
  - now split.
  - subst y. simpl in Hl. rewrite length_append in Hl. lia.
  - subst y'. simpl in Hl. rewrite length_append in Hl. lia.
  - injection H as -> H. destruct (IH _ H Hl) as [-> ->]. now split.
Qed.

Lemma length_zeros (k : nat) :
  String.length (string_of_list_ascii (repeat "0"%char k)) = k.
Proof. induction k as [| k IH]; simpl; [reflexivity | now rewrite IH]. Qed.

Lemma padStart_length (s : string) :
  (2 <= String.length (padStart 2 "0" s))%nat.
Proof. unfold padStart. rewrite length_append, length_zeros. lia. Qed.

Lemma digitsValue_zeros (k : nat) (s : string) (n : Z) :
  digitsValue s = Some n ->
  digitsValue (string_of_list_ascii (repeat "0"%char k) ++ s) = Some n.
Proof.
  intros H. induction k as [| k IH]; simpl; [exact H |].
  unfold digitsValue in *. simpl.
  destruct (NilEmpty.uint_of_string
              (string_of_list_ascii (repeat "0"%char k) ++ s));
    simpl in *; [exact IH | discriminate IH].
Qed.

Lemma digitsValue_toString (n : Z) :
  0 <= n -> digitsValue (toString n) = Some n.
Proof.
  intros Hn. unfold toString, digitsValue.
  pose proof (DecimalZ.of_to n) as Hz.
  destruct n as [| p | p]; [reflexivity | | lia].
  change (Z.to_int (Z.pos p)) with (Decimal.Pos (Pos.to_uint p)) in *.
  unfold NilZero.string_of_int. unfold Z.of_int in Hz.
  destruct (Pos.to_uint p) eqn:E; unfold NilZero.string_of_uint;
    try (rewrite NilEmpty.usu; simpl option_map; now rewrite Hz).
  discriminate Hz.
Qed.

Lemma digitsValue_padStart (n : Z) :
  0 <= n -> digitsValue (padStart 2 "0" (toString n)) = Some n.
Proof.
  intros Hn. unfold padStart. apply digitsValue_zeros.
  now apply digitsValue_toString.
Qed.

Lemma padStart_seconds (n : Z) :
  0 <= n < 60 -> String.length (padStart 2 "0" (toString n)) = 2%nat.
Proof.
  assert (Haux : forall k, (k < 60)%nat ->
            String.length (padStart 2 "0" (toString (Z.of_nat k))) = 2%nat).
  { intros k Hk. do 60 (destruct k as [| k]; [reflexivity |]). lia. }
  intros Hn. rewrite <- (Z2Nat.id n) by lia. apply Haux. lia.
Qed.

(** X23: for a number of seconds that is not negative, [formatTime]
    gives the minutes in at least two digits, a colon, and the seconds of
    the minute in exactly two digits; read back as numbers the two parts are
    the quotient and the remainder by 60, so two different durations never
    get the same text. *)
Theorem formatTime_reads_back (a : Z) :
  0 <= a ->
  exists mm ss,
    formatTime a = (mm ++ ":" ++ ss)%string
    /\ (2 <= String.length mm)%nat
    /\ String.length ss = 2%nat
    /\ digitsValue mm = Some (a / 60)
    /\ digitsValue ss = Some (a mod 60)
    /\ forall b, 0 <= b -> formatTime b = formatTime a -> b = a.
Proof.
  assert (Hshape : forall n, 0 <= n ->
            formatTime n
            = (padStart 2 "0" (toString (n / 60)) ++ ":"
               ++ padStart 2 "0" (toString (n mod 60)))%string).
  { intros n Hn. unfold formatTime. rewrite or_default_some.
    now rewrite Z.rem_mod_nonneg by lia. }
  intros Ha.
  pose proof (Z.mod_pos_bound a 60 ltac:(lia)) as Hma.
  assert (Hda : 0 <= a / 60) by (apply Z.div_pos; lia).
  exists (padStart 2 "0" (toString (a / 60))),
         (padStart 2 "0" (toString (a mod 60))).
  split; [now apply Hshape |]. split; [apply padStart_length |].
  split; [now apply padStart_seconds |].
  split; [now apply digitsValue_padStart |].
  split; [apply digitsValue_padStart; lia |].
  intros b Hb Heq. rewrite (Hshape a Ha), (Hshape b Hb) in Heq.
  pose proof (Z.mod_pos_bound b 60 ltac:(lia)) as Hmb.
  assert (Hdb : 0 <= b / 60) by (apply Z.div_pos; lia).
  apply append_same_suffix in Heq.
  - destruct Heq as [Hm Hs]. injection Hs as Hs.
    assert (E1 : Some (b / 60) = Some (a / 60)).
    { rewrite <- (digitsValue_padStart (b / 60)), <- (digitsValue_padStart (a / 60))
        by assumption. now rewrite Hm. }
    assert (E2 : Some (b mod 60) = Some (a mod 60)).
    { rewrite <- (digitsValue_padStart (b mod 60)),
        <- (digitsValue_padStart (a mod 60)) by lia. now rewrite Hs. }
    injection E1 as E1. injection E2 as E2.
    rewrite (Z.div_mod b 60), (Z.div_mod a 60) by lia. lia.
  - simpl. now rewrite !padStart_seconds.
Qed.

Lemma formatTime_reads_back_witness :
  exists mm ss,
    formatTime 754 = (mm ++ ":" ++ ss)%string
    /\ digitsValue mm = Some 12 /\ digitsValue ss = Some 34.
Proof.
  destruct (formatTime_reads_back 754) as (mm & ss & H1 & _ & _ & H4 & H5 & _).
  - lia.
  - exists mm, ss. split; [exact H1 |]. split; [exact H4 | exact H5].
Defined.

(** ** Escaping the text of a task *)

Lemma list_ascii_append (a b : string) :
  list_ascii_of_string (a ++ b)
  = list_ascii_of_string a ++ list_ascii_of_string b.
Proof. induction a as [| c a IH]; simpl; [reflexivity | now rewrite IH]. Qed.

(** X24: the text [escapeHtml] returns holds no [<] and no [>], so a
    task text cannot open or close a tag in the list; a text without [&],
    [<], [>] and no-break space is returned as it is, and no text gets
    shorter. *)
Theorem escapeHtml_no_markup (s : string) :
  (forall c, In c (list_ascii_of_string (escapeHtml s)) ->
             c <> "<"%char /\ c <> ">"%char)
  /\ ((forall c, In c (list_ascii_of_string s) ->
                 c <> "&"%char /\ c <> "<"%char /\ c <> ">"%char
                 /\ c <> ascii_of_nat 160) ->
      escapeHtml s = s)
  /\ (String.length s <= String.length (escapeHtml s))%nat.
Proof.
  induction s as [| a s (IH1 & IH2 & IH3)]; simpl.
  - split; [intros c [] | split; [reflexivity | lia]].
  - split; [| split].
    + intros c. rewrite list_ascii_append, in_app_iff. intros [H | H];
        [| now apply IH1].
      destruct (nat_of_ascii a =? 38)%nat eqn:E1;
        [simpl in H; intuition (subst; discriminate) |].
      destruct (nat_of_ascii a =? 60)%nat eqn:E2;
        [simpl in H; intuition (subst; discriminate) |].
      destruct (nat_of_ascii a =? 62)%nat eqn:E3;
        [simpl in H; intuition (subst; discriminate) |].
      destruct (nat_of_ascii a =? 160)%nat eqn:E4;
        [simpl in H; intuition (subst; discriminate) |].
      simpl in H. destruct H as [<- | []].
      split; intros ->; simpl in *; discriminate.
    + intros H.
      destruct (H a (or_introl eq_refl)) as (N1 & N2 & N3 & N4).
      assert (Hc : forall k, (k < 256)%nat -> a <> ascii_of_nat k ->
                             (nat_of_ascii a =? k)%nat = false).
      { intros k Hk Hne. apply Nat.eqb_neq. intros E. apply Hne.
        now rewrite <- E, ascii_nat_embedding. }
      rewrite (Hc 38%nat), (Hc 60%nat), (Hc 62%nat), (Hc 160%nat)
        by (auto; lia).
      simpl. rewrite IH2; [reflexivity |].
      intros c Hin. apply H. now right.
    + rewrite length_append.
      destruct (nat_of_ascii a =? 38)%nat; [simpl; lia |].
      destruct (nat_of_ascii a =? 60)%nat; [simpl; lia |].
      destruct (nat_of_ascii a =? 62)%nat; [simpl; lia |].
      destruct (nat_of_ascii a =? 160)%nat; simpl; lia.
Qed.

(** ** Ids after a reload *)

(** X25: after a stored array has been loaded, the counter bounds every
    id of the collection, whatever the state was before; so the id the next
    successful [addTask] assigns is above the id of every loaded task. *)
Theorem loadTasks_then_addTask_fresh
        (text0 : string) (env env' : Env) (st : State) (rs : list Stored) :
  storage st = Some (Records rs) ->
  let st1 := after (loadTasks env st) in
  ids_bounded st1
  /\ (ret (addTask text0 env' st1) = boolean true ->
      exists task,
        tasks (after (addTask text0 env' st1)) = tasks st1 ++ [task]
        /\ Forall (fun old => id old < id task) (tasks st1)).
Proof.
  intros Hs st1.
  assert (Hb : ids_bounded st1).
  { unfold st1, loadTasks, ids_bounded. rewrite Hs. simpl.
    destruct rs as [| r rs']; [constructor |].
    simpl map. rewrite map_map. simpl.
    destruct (Math_max_spec (map (fun x => s_id x) rs') (s_id r)) as [_ Hall].
    inversion Hall as [| ? ? Hr Hrs]; subst.
    constructor; [exact Hr |]. rewrite Forall_map. simpl.
    now rewrite Forall_map in Hrs. }
  split; [exact Hb |]. intros Hret.
  destruct (addTask_appends _ _ _ Hret) as (task & Ht & _ & Hid & _).
  exists task. split; [exact Ht |].
  eapply Forall_impl; [| exact Hb]. simpl. intros old Hold. lia.
Qed.

Lemma loadTasks_then_addTask_fresh_witness :
  let r := {| s_id := 7; s_text := "Call mum"; s_completed := boolean false;
              s_createdAt := Some 0; s_timerSeconds := None;
              s_timerRemainingSeconds := None; s_timerEnd := None;
              s_incomplete := undefined |} in
  let env := {| now := 1000; taskTimer := None; quotaExceeded := false |} in
  let st := {| tasks := []; taskId := 0; storage := Some (Records [r]) |} in
  ids_bounded (after (loadTasks env st)).
Proof.
  intros r env st.
  refine (proj1 (loadTasks_then_addTask_fresh "Buy milk" env env st [r] _)).
  reflexivity.
Defined.
